(** * dwv: image geometry and layer-group synchronisation

    A shallow embedding of the coordinate engine of dwv
    ([dwv.image.Geometry], three revisions of which live in the source tree)
    and of the layer group that keeps several views aligned
    ([LayerGroup], [getViewOrientation], [getScaledOffset]), with the
    lookup of translated unit names ([dwv.i18n]).

    Conventions of the embedding:
    - a JavaScript number that counts or addresses something (a size, an
      array position, a memory offset) is a [Z];
    - a JavaScript number that measures something (a world coordinate, a
      spacing, a scale) is an exact rational [Q]; the rounding error of
      IEEE doubles is outside the model, and [===] on such numbers is
      [Qeq];
    - an array is a [list], read with [!!] and written with [<[i:=v]>];
    - a [throw] is the [Throw] outcome of [result]. *)

From Stdlib Require Import ZArith QArith Qround Qabs Lia Lqa.
From Stdlib Require Strings.String.
From stdpp Require Import base tactics option list.

Local Open Scope Z_scope.

(** ** Outcomes of a call *)

Inductive Exception : Type :=
| ZeroSliceSpacing      (* Error('Zero slice spacing.' ...) *)
| ZeroSizedContainer    (* Error('Cannot fit to zero sized container.') *)
| TypeError             (* a member access on undefined *)
| NotANumber.           (* not an exception of the program: undefined, NaN
                           or an infinity has entered a value that the
                           model keeps as finite numbers; the model follows
                           the computation no further *)

Inductive result (A : Type) : Type :=
| Return (a : A)
| Throw (e : Exception).
Arguments Return {A} a.
Arguments Throw {A} e.

Definition bind {A B} (r : result A) (k : A -> result B) : result B :=
  match r with
  | Return a => k a
  | Throw e => Throw e
  end.

Declare Scope js_scope.
Delimit Scope js_scope with js.
Notation "'let!' x ':=' r 'in' k" := (bind r (fun x => k))
  (at level 10, x pattern, r at level 100, k at level 200) : js_scope.
Local Open Scope js_scope.

(** ** Numbers, points, vectors and matrices (dwv.math) *)

Module MathNS.
Local Open Scope Q_scope.

(** [a < b] on numbers. *)
Definition Qlt_bool (a b : Q) : bool := negb (Qle_bool b a).

(** [Math.round]: the nearest integer, halves going up. *)
Definition round (q : Q) : Z := Qfloor (q + (1 # 2)).

(** The outcome of an arithmetic step that may leave the finite numbers:
    a division by zero gives NaN or an infinity. *)
Inductive Number : Type :=
| Finite (q : Q)
| PlusInfinity
| MinusInfinity
| NaN.

(** [a / b] on finite operands. *)
Definition div (a b : Q) : Number :=
  if Qeq_bool b 0 then
    if Qeq_bool a 0 then NaN
    else if Qlt_bool 0 a then PlusInfinity else MinusInfinity
  else Finite (a / b).

(** [a - b] and [a + b]. *)
Definition sub (a b : Number) : Number :=
  match a, b with
  | NaN, _ | _, NaN => NaN
  | Finite x, Finite y => Finite (x - y)
  | Finite _, PlusInfinity => MinusInfinity
  | Finite _, MinusInfinity => PlusInfinity
  | PlusInfinity, PlusInfinity => NaN
  | MinusInfinity, MinusInfinity => NaN
  | PlusInfinity, _ => PlusInfinity
  | MinusInfinity, _ => MinusInfinity
  end.


(** [Math.min(a, b)]: NaN if either is, else the smaller. *)
Definition min (a b : Number) : Number :=
  match a, b with
  | NaN, _ | _, NaN => NaN
  | MinusInfinity, _ | _, MinusInfinity => MinusInfinity
  | PlusInfinity, n | n, PlusInfinity => n
  | Finite x, Finite y => Finite (if Qle_bool x y then x else y)
  end.


Record Point3D : Type := mkPoint3D { getX : Q; getY : Q; getZ : Q }.

(** A vector answers to the same accessors as a point. *)
Abbreviation Vector3D := Point3D (only parsing).

(** Modelled from the spec: [Point3D.minus], missing from the source tree
    with the rest of the point and vector classes; the spec gives points
    component access, subtraction, equality and Euclidean distance. *)
Definition minus (p q : Point3D) : Vector3D :=
  mkPoint3D (getX p - getX q) (getY p - getY q) (getZ p - getZ q).

(** Modelled from the spec: [Vector3D.dotProduct], missing likewise. *)
Definition dotProduct (u v : Vector3D) : Q :=
  getX u * getX v + getY u * getY v + getZ u * getZ v.

(** Modelled from the spec: [Point3D.equals], missing likewise; [===] on
    each component. *)
Definition point3DEquals (p q : Point3D) : bool :=
  Qeq_bool (getX p) (getX q) && Qeq_bool (getY p) (getY q)
  && Qeq_bool (getZ p) (getZ q).

(** Modelled from the spec: the square of [Point3D.getDistance], missing
    likewise, the Euclidean distance.  The square root is increasing, so
    two distances compare as their squares do; the model compares
    squares. *)
Definition squaredDistance (p q : Point3D) : Q :=
  dotProduct (minus p q) (minus p q).

(** Modelled from the spec: [Matrix33], missing from the source tree; a
    3*3 matrix of numbers whose entry [(i, j)] is read by [get(i, j)]. *)
Record Matrix33 : Type := mkMatrix33 {
  m00 : Q; m01 : Q; m02 : Q;
  m10 : Q; m11 : Q; m12 : Q;
  m20 : Q; m21 : Q; m22 : Q
}.

Definition get (m : Matrix33) (i j : nat) : Q :=
  match i, j with
  | 0, 0 => m00 m | 0, 1 => m01 m | 0, 2 => m02 m
  | 1, 0 => m10 m | 1, 1 => m11 m | 1, 2 => m12 m
  | 2, 0 => m20 m | 2, 1 => m21 m | 2, 2 => m22 m
  | _, _ => 0%Q
  end%nat.

(** Modelled from the spec: [getIdentityMat33], missing likewise. *)
Definition getIdentityMat33 : Matrix33 :=
  mkMatrix33 1 0 0
             0 1 0
             0 0 1.

(** Modelled from the spec: [Matrix33.getAbs], the component-wise absolute
    value. *)
Definition getAbs (m : Matrix33) : Matrix33 :=
  mkMatrix33 (Qabs (m00 m)) (Qabs (m01 m)) (Qabs (m02 m))
             (Qabs (m10 m)) (Qabs (m11 m)) (Qabs (m12 m))
             (Qabs (m20 m)) (Qabs (m21 m)) (Qabs (m22 m)).

(** The rest of the matrix class is not part of the source tree and is
    taken as an interface: inversion ([undefined] on a singular matrix),
    the one-and-zeros simplification, the product of two matrices and the
    product with a vector; and from dwv.math the similarity test with its
    tolerance. *)
Class MathOps : Type := {
  getInverse : Matrix33 -> option Matrix33;
  asOneAndZeros : Matrix33 -> Matrix33;
  multiply : Matrix33 -> Matrix33 -> Matrix33;
  multiplyVector3D : Matrix33 -> Point3D -> Point3D;
  isSimilar : Q -> Q -> Q -> bool;
  BIG_EPSILON : Q
}.

(** Modelled from the spec: a reference implementation of the interface,
    to run the model on concrete data; rows times columns, the inverse by
    cofactors, entries snapped to the nearest of -1, 0 and 1, and
    [|a - b| < tol]. *)
Definition det (m : Matrix33) : Q :=
  m00 m * (m11 m * m22 m - m12 m * m21 m)
  - m01 m * (m10 m * m22 m - m12 m * m20 m)
  + m02 m * (m10 m * m21 m - m11 m * m20 m).

Definition refInverse (m : Matrix33) : option Matrix33 :=
  let d := det m in
  if Qeq_bool d 0 then None
  else Some (mkMatrix33
    ((m11 m * m22 m - m12 m * m21 m) / d)
    ((m02 m * m21 m - m01 m * m22 m) / d)
    ((m01 m * m12 m - m02 m * m11 m) / d)
    ((m12 m * m20 m - m10 m * m22 m) / d)
    ((m00 m * m22 m - m02 m * m20 m) / d)
    ((m02 m * m10 m - m00 m * m12 m) / d)
    ((m10 m * m21 m - m11 m * m20 m) / d)
    ((m01 m * m20 m - m00 m * m21 m) / d)
    ((m00 m * m11 m - m01 m * m10 m) / d)).

Definition snap (q : Q) : Q :=
  if Qle_bool (1 # 2) q then 1
  else if Qle_bool q (- (1 # 2)) then - (1) else 0.

Definition refOneAndZeros (m : Matrix33) : Matrix33 :=
  mkMatrix33 (snap (m00 m)) (snap (m01 m)) (snap (m02 m))
             (snap (m10 m)) (snap (m11 m)) (snap (m12 m))
             (snap (m20 m)) (snap (m21 m)) (snap (m22 m)).

Definition refMultiply (a b : Matrix33) : Matrix33 :=
  let e (i j : nat) :=
    get a i 0 * get b 0 j + get a i 1 * get b 1 j + get a i 2 * get b 2 j in
  mkMatrix33 (e 0 0)%nat (e 0 1)%nat (e 0 2)%nat
             (e 1 0)%nat (e 1 1)%nat (e 1 2)%nat
             (e 2 0)%nat (e 2 1)%nat (e 2 2)%nat.

Definition refMultiplyVector3D (a : Matrix33) (v : Point3D) : Point3D :=
  let e (i : nat) :=
    get a i 0 * getX v + get a i 1 * getY v + get a i 2 * getZ v in
  mkPoint3D (e 0%nat) (e 1%nat) (e 2%nat).

Definition refOps : MathOps := {|
  getInverse := refInverse;
  asOneAndZeros := refOneAndZeros;
  multiply := refMultiply;
  multiplyVector3D := refMultiplyVector3D;
  isSimilar := fun a b tol => Qlt_bool (Qabs (a - b)) tol;
  BIG_EPSILON := 1 # 100000
|}.

End MathNS.

(** ** Further outcomes and operations of dwv.math *)

Module MathExt.
Import MathNS.
Local Open Scope Q_scope.

(** The errors thrown by the functions modelled further down, next to
    those of [Exception]. *)
Inductive Failure : Type :=
| Raised (e : Exception)
| IncompatibleDimensions  (* 'Incompatible point and size number of dimension' *)
| UnexpectedKeyLength     (* 'Unexpected translation key length.' *)
| UnexpectedKeyPrefix.    (* 'Unexpected translation key prefix.' *)

Inductive outcome (A : Type) : Type :=
| Done (a : A)
| Failed (f : Failure).
Arguments Done {A} a.
Arguments Failed {A} f.

Definition lift {A} (r : result A) : outcome A :=
  match r with Return a => Done a | Throw e => Failed (Raised e) end.

Definition andThen {A B} (r : outcome A) (k : A -> outcome B) : outcome B :=
  match r with
  | Done a => k a
  | Failed f => Failed f
  end.

(** [Point3D.isInBounds(min, max)] is not part of the source tree and is
    taken as an interface. *)
Class PointOps : Type := {
  point3DIsInBounds : Point3D -> Point3D -> Point3D -> bool
}.

(** Modelled from the spec: a reference implementation, the box closed on
    both sides, to run the model on concrete data. *)
Definition refPointOps : PointOps := {|
  point3DIsInBounds := fun p lo hi =>
    Qle_bool (getX lo) (getX p) && Qle_bool (getX p) (getX hi)
    && Qle_bool (getY lo) (getY p) && Qle_bool (getY p) (getY hi)
    && Qle_bool (getZ lo) (getZ p) && Qle_bool (getZ p) (getZ hi)
|}.

(** A point lies strictly inside a box. *)
Definition strictlyInside (p lo hi : Point3D) : Prop :=
  getX lo < getX p /\ getX p < getX hi
  /\ getY lo < getY p /\ getY p < getY hi
  /\ getZ lo < getZ p /\ getZ p < getZ hi.

End MathExt.

Notation "'do!' x ':=' r 'in' k" := (MathExt.andThen r (fun x => k))
  (at level 10, x pattern, r at level 100, k at level 200) : js_scope.

(** ** The geometry (current revision, unnamed/part_002) *)

Module Geometry.
Import MathNS.
Local Open Scope Q_scope.

(** A member access on [undefined] throws; an arithmetic step on
    [undefined] gives NaN. *)
Definition defined {A} (o : option A) : result A :=
  match o with Some a => Return a | None => Throw TypeError end.

Definition number {A} (o : option A) : result A :=
  match o with Some a => Return a | None => Throw NotANumber end.

Definition finite (n : Number) : result Q :=
  match n with Finite q => Return q | _ => Throw NotANumber end.

(** [values[i] = v]: in place, or one past the end; further out the array
    would get holes, which no number can fill. *)
Definition arraySet {A} (i : nat) (v : A) (values : list A)
    : result (list A) :=
  if decide (i < length values)%nat then Return (<[i:=v]> values)
  else if decide (i = length values) then Return (values ++ [v])
  else Throw NotANumber.

(** Modelled from the spec: [Spacing.equals] in its array form, missing
    from the source tree; same length and [===] component by component. *)
Fixpoint tupleEquals (a b : list Q) : bool :=
  match a, b with
  | [], [] => true
  | x :: a', y :: b' => Qeq_bool x y && tupleEquals a' b'
  | _, _ => false
  end.

(** [dwv.logger.warn('Varying slice spacing, mean delta: ...')]. *)
Record Warning : Type := mkWarning { meanDelta : Q; cases : nat }.

(** The variables closed over by the constructor.  [size] and [spacing]
    hold the values of the array-backed Size and Spacing objects. *)
Record t : Type := mkGeometry {
  origins : list Point3D;
  size : list Z;
  spacing : list Q;
  orientation : Matrix33;
  newOrigins : bool
}.

Definition create (origin : option Point3D) (size : list Z)
    (spacing : list Q) (orientation : option Matrix33) : t :=
  mkGeometry [default (mkPoint3D 0 0 0) origin] size spacing
             (default getIdentityMat33 orientation) false.

(** [return origins[origins.length - 1];] *)
Definition getOrigin (g : t) : option Point3D := last (origins g).

Definition getOrigins (g : t) : list Point3D := origins g.

(** [getSize()], called without a view orientation. *)
Definition getSize (g : t) : list Z := size g.

Definition getOrientation (g : t) : Matrix33 := orientation g.

(** [function flipK(size, k) { return (size.get(2) - 1) - k; }] *)
Definition flipK (size : list Z) (k : Q) : result Q :=
  let! n := number (size !! 2%nat) in
  Return ((inject_Z n - 1) - k).

(** The scan for the closest origin:
    [if (dist < minDist) { minDist = dist; closestSliceIndex = i; }] *)
Fixpoint closestLoop (point : Point3D) (rest : list Point3D) (i : nat)
    (minDist : Q) (closestSliceIndex : nat) : nat :=
  match rest with
  | [] => closestSliceIndex
  | o :: rest' =>
      let dist := squaredDistance point o in
      if Qlt_bool dist minDist
      then closestLoop point rest' (S i) dist i
      else closestLoop point rest' (S i) minDist closestSliceIndex
  end.

(** [new dwv.math.Vector3D(orientation.get(2, 0), orientation.get(2, 1),
    orientation.get(2, 2))], to the code the third column of the
    orientation and the normal of the slices. *)
Definition normal (orientation : Matrix33) : Vector3D :=
  mkPoint3D (get orientation 2 0) (get orientation 2 1)
            (get orientation 2 2).

(** [(dotProd < 0) ? closestSliceIndex + 1 : closestSliceIndex] *)
Definition getSliceIndex (g : t) (point : Point3D) : result nat :=
  let! origin0 := defined (origins g !! 0%nat) in
  let closestSliceIndex :=
    closestLoop point (origins g) 0 (squaredDistance point origin0) 0 in
  let! closestOrigin := defined (origins g !! closestSliceIndex) in
  let pointDir := minus point closestOrigin in
  let dotProd := dotProduct (normal (orientation g)) pointDir in
  Return (if Qlt_bool dotProd 0
          then (closestSliceIndex + 1)%nat else closestSliceIndex).

(** [origins.splice(index, 0, origin)] *)
Definition splice {A} (index : nat) (x : A) (l : list A) : list A :=
  take index l ++ x :: drop index l.

(** [values[2] += 1] on the values of a Size. *)
Definition incrementThird (values : list Z) : result (list Z) :=
  let! n := number (values !! 2%nat) in
  Return (<[2%nat:=(n + 1)%Z]> values).

(** [newOrigins = true; origins.splice(index, 0, origin);
    values[2] += 1;] *)
Definition appendOrigin (g : t) (origin : Point3D) (index : nat)
    : result t :=
  let origins' := splice index origin (origins g) in
  let! values := incrementThird (size g) in
  Return (mkGeometry origins' values (spacing g) (orientation g) true).

(** [var values = size.getValues(); values[2] += 1;
    size = new dwv.image.Size(values);] *)
Definition appendFrame (g : t) : result t :=
  let! values := incrementThird (size g) in
  Return (mkGeometry (origins g) values (spacing g) (orientation g)
                     (newOrigins g)).

Section WithOps.
Context {ops : MathOps}.

(** The distance between two consecutive origins along the slice
    direction, [Math.abs(origin1.getZ() - origin2.getZ())]. *)
Definition sliceGap (orientation2 : Matrix33) (p1 p2 : Point3D) : Q :=
  Qabs (getZ (multiplyVector3D orientation2 p1)
        - getZ (multiplyVector3D orientation2 p2)).

(** [for (var i = 0; i < origins.length - 1; ++i)] over the pairs of
    consecutive origins; [spacing] starts as [null]. *)
Fixpoint sliceSpacingLoop (orientation2 : Matrix33)
    (rest : list Point3D) (spacing : option Q) (deltas : list Q)
    : result (option Q * list Q) :=
  match rest with
  | p1 :: ((p2 :: _) as rest') =>
      let diff := sliceGap orientation2 p1 p2 in
      if Qeq_bool diff 0 then Throw ZeroSliceSpacing
      else
        match spacing with
        | None => sliceSpacingLoop orientation2 rest' (Some diff) deltas
        | Some s =>
            if isSimilar s diff BIG_EPSILON
            then sliceSpacingLoop orientation2 rest' spacing deltas
            else sliceSpacingLoop orientation2 rest' spacing
                   (deltas ++ [Qabs (s - diff)])
        end
  | _ => Return (spacing, deltas)
  end.

(** Some pair of consecutive origins lies at distance zero. *)
Definition hasZeroGap (orientation2 : Matrix33) (origins : list Point3D)
    : Prop :=
  exists i p1 p2, origins !! i = Some p1 /\ origins !! S i = Some p2
                  /\ sliceGap orientation2 p1 p2 == 0.


(** The spacing the loop ends with: the one it started with, else the
    first distance. *)
Definition firstGap (orientation2 : Matrix33) (origins : list Point3D)
    (spacing : option Q) : option Q :=
  match spacing, origins with
  | Some s, _ => Some s
  | None, p1 :: p2 :: _ => Some (sliceGap orientation2 p1 p2)
  | None, _ => None
  end.

(** [deltas.reduce(sumReducer) / deltas.length], warned about above
    1e-4. *)
Definition spacingWarnings (deltas : list Q) : list Warning :=
  match deltas with
  | [] => []
  | d :: ds =>
      let mean := foldl Qplus d ds / inject_Z (Z.of_nat (length deltas)) in
      if Qlt_bool (1 # 10000) mean
      then [mkWarning mean (length deltas)] else []
  end.

(** Returns the spacing ([null] if it was never set) and what went to
    the logger. *)
Definition getSliceGeometrySpacing (g : t)
    : result (option Q * list Warning) :=
  if decide (length (origins g) = 1%nat) then Return (Some 1, [])
  else
    let! inverse := defined (getInverse (orientation g)) in
    let orientation2 := asOneAndZeros inverse in
    let! (spacing, deltas) :=
      sliceSpacingLoop orientation2 (origins g) None [] in
    Return (spacing, spacingWarnings deltas).

(** [getSpacing()], called without a view orientation: the slice
    spacing is recomputed once after origins were appended. *)
Definition getSpacing (g : t) : result (list Q * t) :=
  if newOrigins g then
    let! (sliceSpacing, _) := getSliceGeometrySpacing g in
    let! s := number sliceSpacing in
    let! values := arraySet 2 s (spacing g) in
    Return (values,
            mkGeometry (origins g) (size g) values (orientation g) false)
  else Return (spacing g, g).

(** [equals]: the conjunction is evaluated left to right and stops at
    the first false.  Two sizes are equal when their values are. *)
Definition equals (g : t) (rhs : option t) : result bool :=
  match rhs with
  | None => Return false
  | Some rhs =>
      let! o1 := defined (getOrigin g) in
      let! o2 := defined (getOrigin rhs) in
      if negb (point3DEquals o1 o2) then Return false
      else if negb (bool_decide (getSize g = getSize rhs)) then Return false
      else
        let! (s1, _) := getSpacing g in
        let! (s2, _) := getSpacing rhs in
        Return (tupleEquals s1 s2)
  end.

(** An index and a point are both tuples of numbers.  [indexToWorld]
    overwrites the first three values of the index; any further value
    passes through. *)
Definition indexToWorld (g : t) (index : list Q) : result (list Q * t) :=
  let origin := getOrigin g in
  let! (spacing, g) := getSpacing g in
  let! k2 := number (index !! 2%nat) in
  let! k := flipK (getSize g) k2 in
  let! origin := defined origin in
  let! i0 := number (index !! 0%nat) in
  let! s0 := number (spacing !! 0%nat) in
  let! i1 := number (index !! 1%nat) in
  let! s1 := number (spacing !! 1%nat) in
  let! s2 := number (spacing !! 2%nat) in
  let values := <[0%nat:=getX origin + i0 * s0]> index in
  let values := <[1%nat:=getY origin + i1 * s1]> values in
  let values := <[2%nat:=getZ origin + k * s2]> values in
  Return (values, g).

(** [worldToIndex] overwrites the first three values of the point with
    rounded quotients; a zero spacing makes a quotient NaN or infinite. *)
Definition worldToIndex (g : t) (point : list Q) : result (list Q * t) :=
  let origin := getOrigin g in
  let! (spacing, g) := getSpacing g in
  let! x := number (point !! 0%nat) in
  let! y := number (point !! 1%nat) in
  let! z := number (point !! 2%nat) in
  let! origin := defined origin in
  let! s0 := number (spacing !! 0%nat) in
  let! q0 := finite (div (x - getX origin) s0) in
  let values := <[0%nat:=inject_Z (round q0)]> point in
  let! s1 := number (spacing !! 1%nat) in
  let! q1 := finite (div (y - getY origin) s1) in
  let values := <[1%nat:=inject_Z (round q1)]> values in
  let! s2 := number (spacing !! 2%nat) in
  let! q2 := finite (div (z - getZ origin) s2) in
  let! k := flipK (getSize g) (inject_Z (round q2)) in
  let values := <[2%nat:=k]> values in
  Return (values, g).
End WithOps.

(** The same geometry under another orientation. *)
Definition withOrientation (g : t) (orientation : Matrix33) : t :=
  mkGeometry (origins g) (size g) (spacing g) orientation (newOrigins g).

(** [===] on every component of two points. *)
Definition pointEq (p q : Point3D) : Prop :=
  getX p == getX q /\ getY p == getY q /\ getZ p == getZ q.

(** An index in bounds: one integer per dimension of the size, each
    within its count. *)
Definition inBounds (size : list Z) (index : list Z) : Prop :=
  Forall2 (fun x n => (0 <= x < n)%Z) index size.

Definition tupleEq (a b : list Q) : Prop := Forall2 Qeq a b.

(** [c] is the position of the origin closest to [point], the first such
    position if several origins are equally close. *)
Definition isClosest (point : Point3D) (origins : list Point3D) (c : nat)
    : Prop :=
  exists oc, origins !! c = Some oc
    /\ (forall j oj, origins !! j = Some oj ->
          squaredDistance point oc <= squaredDistance point oj)
    /\ (forall j oj, (j < c)%nat -> origins !! j = Some oj ->
          squaredDistance point oc < squaredDistance point oj).

(** What the scan has established before it looks at position [i]. *)
Definition closestSoFar (point : Point3D) (origins : list Point3D)
    (i : nat) (minDist : Q) (c : nat) : Prop :=
  exists oc, origins !! c = Some oc
    /\ minDist = squaredDistance point oc
    /\ (forall j oj, (j < i)%nat -> origins !! j = Some oj ->
          minDist <= squaredDistance point oj)
    /\ (forall j oj, (j < c)%nat -> origins !! j = Some oj ->
          minDist < squaredDistance point oj).


(** ** The rest of the current revision *)

Section WithBounds.
Import MathExt.
Context {ops : MathOps} {pops : PointOps}.

(** [values.push(size.get(i) * spacing.get(i))] for every dimension of the
    size; a dimension without a spacing gives NaN. *)
Definition getRealSize (g : t) : result (list Number * t) :=
  let size := getSize g in
  let! (spacing, g) := getSpacing g in
  Return (imap (fun i n => match spacing !! i with
                           | Some s => Finite (inject_Z n * s)
                           | None => NaN
                           end) size,
          g).

(** [for (var i = 3; i < point.length(); ++i)
       inBounds = inBounds && point.get(i) >= 0 && point.get(i) < size.get(i);]
    over the values from position 3 on. *)
Fixpoint otherDimensions (point : list Q) (size : list Z) (inBounds : bool)
    : bool :=
  match point, size with
  | p :: point', n :: size' =>
      otherDimensions point' size'
        (inBounds && Qle_bool 0 p && Qlt_bool p (inject_Z n))
  | _, _ => inBounds
  end.

Definition isInBounds (g : t) (point : list Q) : outcome (bool * t) :=
  let origin := getOrigin g in
  do! (spacing, g) := lift (getSpacing g) in
  do! origin := lift (defined origin) in
  do! s0 := lift (number (spacing !! 0%nat)) in
  do! s1 := lift (number (spacing !! 1%nat)) in
  do! s2 := lift (number (spacing !! 2%nat)) in
  let min := mkPoint3D (getX origin - s0 / 2) (getY origin - s1 / 2)
                       (getZ origin - s2 / 2) in
  do! (realSize, g) := lift (getRealSize g) in
  do! r0 := lift (let! r := number (realSize !! 0%nat) in finite r) in
  do! r1 := lift (let! r := number (realSize !! 1%nat) in finite r) in
  do! r2 := lift (let! r := number (realSize !! 2%nat) in finite r) in
  let max := mkPoint3D (getX min + r0) (getY min + r1) (getZ min + r2) in
  do! x := lift (number (point !! 0%nat)) in
  do! y := lift (number (point !! 1%nat)) in
  do! z := lift (number (point !! 2%nat)) in
  let inBounds := point3DIsInBounds (mkPoint3D x y z) min max in
  if decide (3 < length point)%nat then
    let size := getSize g in
    if decide (length size = length point) then
      Done (otherDimensions (drop 3 point) (drop 3 size) inBounds, g)
    else Failed IncompatibleDimensions
  else Done (inBounds, g).

(** [pointToWorld]: as [indexToWorld], from a point to a point. *)
Definition pointToWorld (g : t) (point : Point3D) : result (Point3D * t) :=
  let origin := getOrigin g in
  let! (spacing, g) := getSpacing g in
  let! k := flipK (getSize g) (getZ point) in
  let! origin := defined origin in
  let! s0 := number (spacing !! 0%nat) in
  let! s1 := number (spacing !! 1%nat) in
  let! s2 := number (spacing !! 2%nat) in
  Return (mkPoint3D (getX origin + getX point * s0)
                    (getY origin + getY point * s1)
                    (getZ origin + k * s2),
          g).
End WithBounds.

(** One [appendOrigin] after the other. *)
Fixpoint appendOrigins (g : t) (appended : list (Point3D * nat)) : result t :=
  match appended with
  | [] => Return g
  | (origin, index) :: rest =>
      let! g := appendOrigin g origin index in
      appendOrigins g rest
  end.

(** The slice count of the size is the number of origins. *)
Definition slicesMatchOrigins (g : t) : Prop :=
  size g !! 2%nat = Some (Z.of_nat (length (origins g))).

(** No two origins of the list coincide. *)
Definition distinctOrigins (origins : list Point3D) : Prop :=
  forall i j oi oj, origins !! i = Some oi -> origins !! j = Some oj ->
                    pointEq oi oj -> i = j.

End Geometry.

(** ** The geometry (first revision, unnamed/part_003) *)

Module GeometryLegacy.
Import MathNS.
Local Open Scope Q_scope.

(** The size and the spacing of this revision play no part in the slice
    lookup and are left out of the record. *)
Record t : Type := mkGeometry {
  origin : Point3D;
  origins : list Point3D;
  orientation : Matrix33
}.

Definition create (origin : option Point3D)
    (orientation : option Matrix33) : t :=
  let origin := default (mkPoint3D 0 0 0) origin in
  mkGeometry origin [origin] (default getIdentityMat33 orientation).

(** The same scan as in the current revision; then
    [(dotProd > 0) ? closestSliceIndex + 1 : closestSliceIndex]. *)
Definition getSliceIndex (g : t) (point : Point3D) : result nat :=
  let! origin0 := Geometry.defined (origins g !! 0%nat) in
  let closestSliceIndex :=
    Geometry.closestLoop point (origins g) 0
      (squaredDistance point origin0) 0 in
  let! closestOrigin := Geometry.defined (origins g !! closestSliceIndex) in
  let dotProd :=
    dotProduct (Geometry.normal (orientation g)) (minus point closestOrigin) in
  Return (if Qlt_bool 0 dotProd
          then (closestSliceIndex + 1)%nat else closestSliceIndex).

Definition appendOrigin (g : t) (o : Point3D) (index : nat) : t :=
  mkGeometry (origin g) (Geometry.splice index o (origins g))
             (orientation g).


(** ** Size, spacing and conversions of the first revision *)

(** [x || 1.0]: an absent or zero count or spacing stands for one. *)
Definition orOne (x : option Z) : Z :=
  match x with
  | None | Some 0%Z => 1%Z
  | Some n => n
  end.

Definition orOneQ (x : option Q) : Q :=
  match x with
  | None => 1
  | Some q => if Qeq_bool q 0 then 1 else q
  end.

(** [dwv.image.Size] with its four constructor arguments; the last two may
    be left undefined. *)
Record Size : Type := mkSize {
  numberOfColumns : Z;
  numberOfRows : Z;
  numberOfSlices : option Z;
  numberOfFrames : option Z
}.

Definition getNumberOfColumns (size : Size) : Z := numberOfColumns size.
Definition getNumberOfRows (size : Size) : Z := numberOfRows size.
Definition getNumberOfSlices (size : Size) : Z := orOne (numberOfSlices size).
Definition getNumberOfFrames (size : Size) : Z := orOne (numberOfFrames size).

Definition getSliceSize (size : Size) : Z :=
  (getNumberOfColumns size * getNumberOfRows size)%Z.

Definition getFrameSize (size : Size) : Z :=
  (getSliceSize size * getNumberOfSlices size)%Z.

Definition getTotalSize (size : Size) : Z :=
  (getFrameSize size * getNumberOfFrames size)%Z.

Definition sizeEquals (size : Size) (rhs : option Size) : bool :=
  match rhs with
  | None => false
  | Some rhs =>
      (getNumberOfColumns size =? getNumberOfColumns rhs)%Z
      && (getNumberOfRows size =? getNumberOfRows rhs)%Z
      && (getNumberOfSlices size =? getNumberOfSlices rhs)%Z
      && (getNumberOfFrames size =? getNumberOfFrames rhs)%Z
  end.

(** [Size.isInBounds(i, j, k)] *)
Definition sizeIsInBounds (size : Size) (i j k : Z) : bool :=
  if ((i <? 0) || (getNumberOfColumns size - 1 <? i)
      || (j <? 0) || (getNumberOfRows size - 1 <? j)
      || (k <? 0) || (getNumberOfSlices size - 1 <? k))%Z
  then false else true.

(** [dwv.image.Spacing] with its three constructor arguments. *)
Record Spacing : Type := mkSpacing {
  columnSpacing : Q;
  rowSpacing : Q;
  sliceSpacing : option Q
}.

Definition getColumnSpacing (spacing : Spacing) : Q := columnSpacing spacing.
Definition getRowSpacing (spacing : Spacing) : Q := rowSpacing spacing.
Definition getSliceSpacing (spacing : Spacing) : Q :=
  orOneQ (sliceSpacing spacing).

Definition spacingEquals (spacing : Spacing) (rhs : option Spacing) : bool :=
  match rhs with
  | None => false
  | Some rhs =>
      Qeq_bool (getColumnSpacing spacing) (getColumnSpacing rhs)
      && Qeq_bool (getRowSpacing spacing) (getRowSpacing rhs)
      && Qeq_bool (getSliceSpacing spacing) (getSliceSpacing rhs)
  end.

(** The geometry of the first revision with its size and spacing. *)
Record volume : Type := mkVolume {
  geometry : t;
  size : Size;
  spacing : Spacing
}.

(** [getOrigin] returns the origin given to the constructor. *)
Definition getOrigin (v : volume) : Point3D := origin (geometry v).

(** [appendOrigin]: the origin is spliced in and a new size is built with
    one more slice. *)
Definition appendOriginVolume (v : volume) (o : Point3D) (index : nat)
    : volume :=
  mkVolume (appendOrigin (geometry v) o index)
           (mkSize (getNumberOfColumns (size v)) (getNumberOfRows (size v))
                   (Some (getNumberOfSlices (size v) + 1)%Z)
                   (Some (getNumberOfFrames (size v))))
           (spacing v).

(** An index of three integers. *)
Record Index3 : Type := mkIndex3 { getI : Z; getJ : Z; getK : Z }.

Definition indexToOffset (v : volume) (index : Index3) : Z :=
  (getI index + getJ index * getNumberOfColumns (size v)
   + getK index * getSliceSize (size v))%Z.

Definition indexToWorld (v : volume) (index : Index3) : Point3D :=
  let origin := getOrigin v in
  mkPoint3D
    (getX origin + inject_Z (getI index) * getColumnSpacing (spacing v))
    (getY origin + inject_Z (getJ index) * getRowSpacing (spacing v))
    (getZ origin + inject_Z (getK index) * getSliceSpacing (spacing v)).

(** [point.getX() / spacing.getColumnSpacing() - origin.getX()], and so
    on for the two other axes. *)
Definition worldToIndex (v : volume) (point : Point3D)
    : Number * Number * Number :=
  let origin := getOrigin v in
  (sub (div (getX point) (getColumnSpacing (spacing v))) (Finite (getX origin)),
   sub (div (getY point) (getRowSpacing (spacing v))) (Finite (getY origin)),
   sub (div (getZ point) (getSliceSpacing (spacing v))) (Finite (getZ origin))).

End GeometryLegacy.

(** ** Memory offsets (third revision of the geometry, unnamed/part_003) *)

Module Offsets.

(** [dwv.image.Size] in its array form: one count per dimension. *)
Abbreviation Size := (list Z) (only parsing).
Abbreviation Index := (list Z) (only parsing).

(** Modelled from the spec: [Size.getDimSize] is not part of the source
    tree; the spec gives it as the cumulative stride, [stride[0] = 1] and
    [stride[d] = stride[d-1] * size[d-1]], that is, the product of the
    first [d] counts. *)
Definition getDimSize (size : Size) (d : nat) : Z :=
  foldr Z.mul 1 (take d size).

(** [for (var i = 0; i < index.length(); ++i)
       offset += index.get(i) * size.getDimSize(i);] *)
Fixpoint indexToOffset_loop (size : Size) (rest : Index) (i : nat)
    (offset : Z) : Z :=
  match rest with
  | [] => offset
  | v :: rest' =>
      indexToOffset_loop size rest' (S i) (offset + v * getDimSize size i)
  end.

Definition indexToOffset (size : Size) (index : Index) : Z :=
  indexToOffset_loop size index 0 0.

(** [for (var i = size.length() - 1; i > 0; --i)]: the body for position
    [i], then the positions below.  A zero [dimSize] makes the quotient
    NaN or infinite. *)
Fixpoint offsetToIndex_loop (size : Size) (i : nat) (off : Z)
    (values : list Z) : result (Z * list Z) :=
  match i with
  | O => Return (off, values)
  | S i' =>
      let dimSize := getDimSize size i in
      if decide (dimSize = 0) then Throw NotANumber
      else
        let v := off / dimSize in            (* Math.floor(off / dimSize) *)
        offsetToIndex_loop size i' (off - v * dimSize) (<[i:=v]> values)
  end.

(** [new Array(size.length())] holds no value yet; every slot that exists
    is written before the array is read, so the placeholder [0] never
    shows.  [values[0] = off] on an empty array makes it one long. *)
Definition offsetToIndex (size : Size) (offset : Z) : result Index :=
  let values := replicate (length size) 0 in
  let! (off, values) := offsetToIndex_loop size (length size - 1) offset values in
  Return (match values with
          | [] => [off]
          | _ :: _ => <[0%nat:=off]> values
          end).

(** In bounds: as many components as the size, each within its count. *)
Definition inBounds (size : Size) (index : Index) : Prop :=
  Forall2 (fun x n => 0 <= x < n) index size.

(** The offset contributed by the first [k] components of an index. *)
Fixpoint partialOffset (size : Size) (index : Index) (k : nat) : Z :=
  match k with
  | O => 0
  | S k' => partialOffset size index k'
            + default 0 (index !! k') * getDimSize size k'
  end.

End Offsets.

(** ** The layer group (unnamed/part_001) *)

Module LayerGroup.
Import MathNS.
Local Open Scope Q_scope.

(** [imageOrientation.asOneAndZeros().getInverse().multiply(target)], the
    identity without a target; in both cases the absolute value is
    returned. *)
Definition getViewOrientation {ops : MathOps} (imageOrientation : Matrix33)
    (targetOrientation : option Matrix33) : result Matrix33 :=
  let! viewOrientation :=
    match targetOrientation with
    | None => Return getIdentityMat33
    | Some target =>
        let! inverse :=
          Geometry.defined (getInverse (asOneAndZeros imageOrientation)) in
        Return (multiply inverse target)
    end in
  Return (getAbs viewOrientation).

(** An [{x, y}] object of finite numbers, and one whose members come out
    of a division. *)
Record XY : Type := mkXY { xOf : Q; yOf : Q }.






(** The handlers the group attaches to a view layer's 'positionchange'. *)
Inductive Handler : Type := UpdateLayersToPositionChange | FireEvent.

(** What the group asks of a layer.  The layer classes are not part of the
    source tree; a layer is any state with these operations.  The accessors
    of the view controller are meaningful on view layers only, which is
    where the group uses them. *)
Class LayerAPI (L : Type) : Type := {
  isViewLayer : L -> bool;                 (* instanceof ViewLayer *)
  getId : L -> String.string;
  getImageWorldSize : L -> XY;
  vcGetOrigin0 : L -> Point3D;             (* getViewController().getOrigin() *)
  vcGetOrigin : L -> list Q -> option Point3D;   (* ...getOrigin(position) *)
  vcCanSetPosition : L -> list Q -> bool;
  setBaseOffset : L -> Vector3D -> Vector3D -> bool * L;
  setCurrentPosition : L -> list Q -> list Q -> bool * L;
  draw : L -> L;
  addEventListener : L -> Handler -> L;
  removeEventListener : L -> Handler -> L
}.

(** The calls the group makes on its layers, by position in the list, with
    what they returned. *)
Inductive Call : Type :=
| CallRemoveEventListener (i : nat) (h : Handler)
| CallAddEventListener (i : nat) (h : Handler)
| CallShowCrosshairDiv (position : list Q)
| CallSetBaseOffset (i : nat) (scrollOffset planeOffset : Vector3D) (ret : bool)
| CallSetCurrentPosition (i : nat) (ret : bool)
| CallDraw (i : nat).

(** The layer a call is made on. *)
Definition layerOf (c : Call) : option nat :=
  match c with
  | CallRemoveEventListener i _ | CallAddEventListener i _
  | CallSetBaseOffset i _ _ _ | CallSetCurrentPosition i _ | CallDraw i =>
      Some i
  | CallShowCrosshairDiv _ => None
  end.

(** A call that only touches listeners or the crosshair. *)
Definition isHousekeeping (c : Call) : Prop :=
  match c with
  | CallRemoveEventListener _ _ | CallAddEventListener _ _
  | CallShowCrosshairDiv _ => True
  | _ => False
  end.

(** [{type: 'positionchange', value: [index, position], srclayerid}] *)
Record PositionEvent : Type := mkPositionEvent {
  eventIndex : list Q;
  eventPosition : list Q;
  srclayerid : String.string
}.

Section WithLayers.
Context {L : Type} {api : LayerAPI L}.

(** The fields of the group that the operations below touch. *)
Record t : Type := mkLayerGroup {
  layers : list L;
  offsetWidth : Z;             (* of the container div *)
  offsetHeight : Z;
  showCrosshair : bool;
  currentPosition : option (list Q)
}.

(** [getMaxSize]: the loop over the layers, then the test for nothing
    found. *)
Fixpoint maxSizeLoop (ls : list L) (maxSize : XY) : XY :=
  match ls with
  | [] => maxSize
  | layer :: rest =>
      if isViewLayer layer then
        let size := getImageWorldSize layer in
        let mx := if Qlt_bool (xOf maxSize) (xOf size)
                  then xOf size else xOf maxSize in
        let my := if Qlt_bool (yOf maxSize) (yOf size)
                  then yOf size else yOf maxSize in
        maxSizeLoop rest (mkXY mx my)
      else maxSizeLoop rest maxSize
  end.

Definition getMaxSize (lg : t) : option XY :=
  let maxSize := maxSizeLoop (layers lg) (mkXY 0 0) in
  if Qeq_bool (xOf maxSize) 0 && Qeq_bool (yOf maxSize) 0
  then None else Some maxSize.

(** [undefined] is [None]. *)
Definition calculateFitScale (lg : t) : result (option Number) :=
  if (offsetWidth lg =? 0)%Z && (offsetHeight lg =? 0)%Z
  then Throw ZeroSizedContainer
  else
    match getMaxSize lg with
    | None => Return None
    | Some maxSize =>
        Return (Some (min (div (inject_Z (offsetWidth lg)) (xOf maxSize))
                          (div (inject_Z (offsetHeight lg)) (yOf maxSize))))
    end.

(** Pausing and restarting the 'positionchange' listeners of the view
    layers. *)
Fixpoint pauseListeners (ls : list L) (j : nat) : list L * list Call :=
  match ls with
  | [] => ([], [])
  | layer :: rest =>
      let (rest', calls) := pauseListeners rest (S j) in
      if isViewLayer layer then
        (removeEventListener
           (removeEventListener layer UpdateLayersToPositionChange) FireEvent
           :: rest',
         CallRemoveEventListener j UpdateLayersToPositionChange
           :: CallRemoveEventListener j FireEvent :: calls)
      else (layer :: rest', calls)
  end.

Fixpoint restartListeners (ls : list L) (k : nat) : list L * list Call :=
  match ls with
  | [] => ([], [])
  | layer :: rest =>
      let (rest', calls) := restartListeners rest (S k) in
      if isViewLayer layer then
        (addEventListener
           (addEventListener layer UpdateLayersToPositionChange) FireEvent
           :: rest',
         CallAddEventListener k UpdateLayersToPositionChange
           :: CallAddEventListener k FireEvent :: calls)
      else (layer :: rest', calls)
  end.

(** The base offset of layer [i].  [base] holds [baseViewLayerOrigin0] and
    [baseViewLayerOrigin] once the latter is defined; until then every view
    layer overwrites both. *)
Definition updateBaseOffset (position : list Q) (layer : L) (i : nat)
    (base : option (Point3D * Point3D))
    : bool * L * option (Point3D * Point3D) * list Call :=
  if isViewLayer layer then
    let origin0 := vcGetOrigin0 layer in
    let origin := vcGetOrigin layer position in
    match base with
    | None => (false, layer, (fun o => (origin0, o)) <$> origin, [])
    | Some (baseViewLayerOrigin0, baseViewLayerOrigin) =>
        match vcCanSetPosition layer position, origin with
        | true, Some origin =>
            let scrollOffset := minus baseViewLayerOrigin0 origin0 in
            let planeOffset := minus baseViewLayerOrigin origin in
            let (hasSetOffset, layer') :=
              setBaseOffset layer scrollOffset planeOffset in
            (hasSetOffset, layer', base,
             [CallSetBaseOffset i scrollOffset planeOffset hasSetOffset])
        | _, _ => (false, layer, base, [])
        end
    end
  else (false, layer, base, []).

(** The position of layer [i], unless the event came from it. *)
Definition updatePosition (event : PositionEvent) (layer : L) (i : nat)
    : bool * L * list Call :=
  if negb (String.eqb (getId layer) (srclayerid event)) then
    let (hasSetPos, layer') :=
      setCurrentPosition layer (eventPosition event) (eventIndex event) in
    (hasSetPos, layer', [CallSetCurrentPosition i hasSetPos])
  else (false, layer, []).

(** [if (!hasSetPos && hasSetOffset) { this.#layers[i].draw(); }] *)
Definition forceRedraw (hasSetPos hasSetOffset : bool) (layer : L) (i : nat)
    : L * list Call :=
  if negb hasSetPos && hasSetOffset then (draw layer, [CallDraw i])
  else (layer, []).

Fixpoint positionLoop (event : PositionEvent) (ls : list L) (i : nat)
    (base : option (Point3D * Point3D)) : list L * list Call :=
  match ls with
  | [] => ([], [])
  | layer :: rest =>
      let '(hasSetOffset, layer, base, calls1) :=
        updateBaseOffset (eventPosition event) layer i base in
      let '(hasSetPos, layer, calls2) := updatePosition event layer i in
      let (layer, calls3) := forceRedraw hasSetPos hasSetOffset layer i in
      let (rest', calls) := positionLoop event rest (S i) base in
      (layer :: rest', calls1 ++ calls2 ++ calls3 ++ calls)
  end.

(** The crosshair is drawn from the first layer; without one the access
    to its view controller throws. *)
Definition showCrosshairDiv (ls : list L) (position : list Q)
    : result (list Call) :=
  let! _ := Geometry.defined (ls !! 0%nat) in
  Return [CallShowCrosshairDiv position].

Definition updateLayersToPositionChange (lg : t) (event : PositionEvent)
    : result (t * list Call) :=
  let (ls, paused) := pauseListeners (layers lg) 0 in
  let position := eventPosition event in
  let! crosshair :=
    if showCrosshair lg then showCrosshairDiv ls position else Return [] in
  let (ls, updated) := positionLoop event ls 0 None in
  let (ls, restarted) := restartListeners ls 0 in
  Return (mkLayerGroup ls (offsetWidth lg) (offsetHeight lg)
                       (showCrosshair lg) (Some position),
          paused ++ crosshair ++ updated ++ restarted).

(** Layer [i] was forced to redraw; it refused the position; it took a
    base offset. *)
Definition forcedRedraw (calls : list Call) (i : nat) : Prop :=
  In (CallDraw i) calls.

Definition refusedPosition (calls : list Call) (i : nat) : Prop :=
  In (CallSetCurrentPosition i false) calls.

Definition acceptedPosition (calls : list Call) (i : nat) : Prop :=
  In (CallSetCurrentPosition i true) calls.

Definition appliedBaseOffset (calls : list Call) (i : nat) : Prop :=
  exists scrollOffset planeOffset,
    In (CallSetBaseOffset i scrollOffset planeOffset true) calls.

(** The rule of one pass, for layer [k]: a refused position with a base
    offset applied forces a redraw, and nothing else does. *)
Definition redrawRule (calls : list Call) (k : nat) : Prop :=
  (refusedPosition calls k -> appliedBaseOffset calls k -> forcedRedraw calls k)
  /\ (forcedRedraw calls k ->
      ~ acceptedPosition calls k /\ appliedBaseOffset calls k).

(** One layer as the first loop leaves it, with its 'positionchange'
    listeners removed, and as the last loop leaves it, with the listeners
    back. *)
Definition paused (layer : L) : L :=
  if isViewLayer layer then
    removeEventListener
      (removeEventListener layer UpdateLayersToPositionChange) FireEvent
  else layer.

Definition restarted (layer : L) : L :=
  if isViewLayer layer then
    addEventListener
      (addEventListener layer UpdateLayersToPositionChange) FireEvent
  else layer.

(** [baseViewLayerOrigin0] and [baseViewLayerOrigin] once the loop has gone
    through the layers [before]: every view layer sets both for as long as
    the second one is not defined. *)
Fixpoint baseViewLayerOrigins (position : list Q)
    (base : option (Point3D * Point3D)) (before : list L)
    : option (Point3D * Point3D) :=
  match before with
  | [] => base
  | layer :: rest =>
      baseViewLayerOrigins position
        (match base with
         | Some _ => base
         | None =>
             if isViewLayer layer then
               (fun o => (vcGetOrigin0 layer, o)) <$> vcGetOrigin layer position
             else None
         end) rest
  end.

(** [scrollOffset] and [planeOffset] for a layer, where the loop gets as
    far as computing them. *)
Definition baseOffsets (position : list Q)
    (base : option (Point3D * Point3D)) (layer : L)
    : option (Vector3D * Vector3D) :=
  if isViewLayer layer then
    match base with
    | None => None
    | Some (baseViewLayerOrigin0, baseViewLayerOrigin) =>
        match vcCanSetPosition layer position, vcGetOrigin layer position with
        | true, Some origin =>
            Some (minus baseViewLayerOrigin0 (vcGetOrigin0 layer),
                  minus baseViewLayerOrigin origin)
        | _, _ => None
        end
    end
  else None.

(** What a layer itself answers.  [hasSetOffset] is what its
    [setBaseOffset] returns for the offsets above, and false where there
    are none; [hasSetPos] is what its [setCurrentPosition] returns, and
    false for the layer the event came from.  [layer'] is the layer after
    the call. *)
Definition answeredOffset (position : list Q)
    (base : option (Point3D * Point3D)) (layer : L)
    (hasSetOffset : bool) (layer' : L) : Prop :=
  match baseOffsets position base layer with
  | Some (scrollOffset, planeOffset) =>
      setBaseOffset layer scrollOffset planeOffset = (hasSetOffset, layer')
  | None => hasSetOffset = false /\ layer' = layer
  end.

Definition answeredPosition (event : PositionEvent) (layer : L)
    (hasSetPos : bool) (layer' : L) : Prop :=
  if String.eqb (getId layer) (srclayerid event)
  then hasSetPos = false /\ layer' = layer
  else setCurrentPosition layer (eventPosition event) (eventIndex event)
       = (hasSetPos, layer').

End WithLayers.
Arguments t L : clear implicits.

End LayerGroup.

(** ** Translations (src/utils/i18n.js) *)

Module I18n.
Import Strings.Ascii Strings.String MathExt.

(** [key.split(sep)] for a separator of one character: the pieces between
    the separators, in their order; a string without a separator, the
    empty one included, is one piece. *)
Fixpoint split (sep : ascii) (key : string) : list string :=
  match key with
  | EmptyString => [EmptyString]
  | String c rest =>
      if Ascii.eqb c sep then EmptyString :: split sep rest
      else match split sep rest with
           | piece :: pieces => String c piece :: pieces
           | [] => [String c EmptyString]
           end
  end.

(** The entries of the [unit] object.  For a name without an entry the
    lookup gives [undefined], or what [Object.prototype] holds under that
    name; the model keeps the two together as [None]. *)
Definition unit (name : string) : option string :=
  if String.eqb name "mm" then Some "mm"%string
  else if String.eqb name "cm2" then Some "cm²"%string
  else if String.eqb name "degree" then Some "°"%string
  else None.

Definition i18n (key : string) : outcome (option string) :=
  let props := split "." key in
  if negb (Nat.eqb (Datatypes.length props) 2) then Failed UnexpectedKeyLength
  else
    match props with
    | prefix :: name :: _ =>
        if negb (String.eqb prefix "unit") then Failed UnexpectedKeyPrefix
        else Done (unit name)
    | _ => Failed (Raised TypeError)   (* not reached: two entries here *)
    end.


(** The separator and the prefix of the keys, and [prefix + '.' + name]. *)
Definition dot : ascii := ".".
Definition unitPrefix : string := "unit".

Definition dotted (prefix name : string) : string :=
  (prefix ++ String dot name)%string.

(** A name of the unit table and one that is not in it. *)
Definition sampleNames : string * string := ("mm", "inch")%string.

End I18n.

(** ** Data to run the model on *)

Module Examples.
Import MathNS.
Import Strings.String.
Local Open Scope Q_scope.

(** The volume of the spec's scenario: origin (0,0,0), size (4,4,2,1),
    spacing (1,1,1), default orientation. *)
Definition volume : Geometry.t :=
  Geometry.create (Some (mkPoint3D 0 0 0)) [4; 4; 2; 1]%Z [1; 1; 1] None.

(** A single slice, and the stacks it grows into when a second origin is
    appended two units below, one unit above or one unit below. *)
Definition slice : Geometry.t :=
  Geometry.create (Some (mkPoint3D 0 0 0)) [4; 4; 1]%Z [1; 1; 1] None.

Definition stackOf (second : Point3D) : Geometry.t :=
  Geometry.mkGeometry [mkPoint3D 0 0 0; second] [4; 4; 2]%Z [1; 1; 1]
                      getIdentityMat33 true.

Definition stack : Geometry.t := stackOf (mkPoint3D 0 0 (-2)).
Definition stackUp : Geometry.t := stackOf (mkPoint3D 0 0 1).
Definition stackDown : Geometry.t := stackOf (mkPoint3D 0 0 (-1)).

(** [stack] once [getSpacing] has refreshed the slice spacing. *)
Definition stackFresh : Geometry.t :=
  Geometry.mkGeometry [mkPoint3D 0 0 0; mkPoint3D 0 0 (-2)] [4; 4; 2]%Z
                      [1; 1; 2] getIdentityMat33 false.

(** Three origins, the last two on the same plane. *)
Definition degenerate : Geometry.t :=
  Geometry.mkGeometry [mkPoint3D 0 0 0; mkPoint3D 0 0 1; mkPoint3D 5 0 1]
                      [4; 4; 3]%Z [1; 1; 1] getIdentityMat33 true.

(** The first revision of the geometry with one origin. *)
Definition legacy : GeometryLegacy.t :=
  GeometryLegacy.create (Some (mkPoint3D 0 0 0)) None.

(** A permutation of the axes, as an image orientation. *)
Definition sagittal : Matrix33 :=
  mkMatrix33 0 0 1
             1 0 0
             0 1 0.

(** A layer that answers from its fields and counts its redraws. *)
Record StubLayer : Type := mkStubLayer {
  stubId : String.string;
  stubIsView : bool;
  stubWorldSize : LayerGroup.XY;
  stubOrigin : option Point3D;
  stubTakesOffset : bool;
  stubTakesPosition : bool;
  stubDraws : nat;
  stubListeners : list LayerGroup.Handler
}.

Definition stubDraw (l : StubLayer) : StubLayer :=
  mkStubLayer (stubId l) (stubIsView l) (stubWorldSize l) (stubOrigin l)
              (stubTakesOffset l) (stubTakesPosition l) (S (stubDraws l))
              (stubListeners l).

Definition stubListen (l : StubLayer) (h : LayerGroup.Handler) : StubLayer :=
  mkStubLayer (stubId l) (stubIsView l) (stubWorldSize l) (stubOrigin l)
              (stubTakesOffset l) (stubTakesPosition l) (stubDraws l)
              (h :: stubListeners l).

Definition stubUnlisten (l : StubLayer) (h : LayerGroup.Handler) : StubLayer :=
  mkStubLayer (stubId l) (stubIsView l) (stubWorldSize l) (stubOrigin l)
              (stubTakesOffset l) (stubTakesPosition l) (stubDraws l) [].

#[global] Instance stubAPI : LayerGroup.LayerAPI StubLayer := {|
  LayerGroup.isViewLayer := stubIsView;
  LayerGroup.getId := stubId;
  LayerGroup.getImageWorldSize := stubWorldSize;
  LayerGroup.vcGetOrigin0 := fun _ => mkPoint3D 0 0 0;
  LayerGroup.vcGetOrigin := fun l _ => stubOrigin l;
  LayerGroup.vcCanSetPosition := fun _ _ => true;
  LayerGroup.setBaseOffset := fun l _ _ => (stubTakesOffset l, l);
  LayerGroup.setCurrentPosition := fun l _ _ => (stubTakesPosition l, l);
  LayerGroup.draw := stubDraw;
  LayerGroup.addEventListener := stubListen;
  LayerGroup.removeEventListener := stubUnlisten
|}.

Definition viewLayer (id : String.string) (w h : Q) (takesPosition : bool)
    : StubLayer :=
  mkStubLayer id true (LayerGroup.mkXY w h) (Some (mkPoint3D 0 0 0))
              true takesPosition 0 [].

(** Two views of 100 by 100 in a container of 200 by 100; the second view
    cannot follow a position. *)
Definition twoViews : LayerGroup.t StubLayer :=
  LayerGroup.mkLayerGroup
    [viewLayer "a"%string 100 100 true; viewLayer "b"%string 100 100 false]
    200 100 false None.

(** One view of 10 by 10 in a container without width. *)
Definition flatContainer : LayerGroup.t StubLayer :=
  LayerGroup.mkLayerGroup [viewLayer "a"%string 10 10 true] 0 100 false None.

Definition moved : LayerGroup.PositionEvent :=
  LayerGroup.mkPositionEvent [0; 0; 1] [0; 0; 1] "a"%string.

End Examples.

(** ** Further data *)

Module Samples.
Import MathNS.
Local Open Scope Q_scope.

(** A point of [Examples.stack] that is the centre of no voxel. *)
Definition offCentre : list Q := [6 # 5; 12 # 5; - (3 # 2)].

(** A volume of the first revision: 4 columns, 4 rows and 2 slices, columns
    2 apart, the slice spacing left undefined, the origin off zero along x
    and y. *)
Definition legacyVolume : GeometryLegacy.volume :=
  GeometryLegacy.mkVolume
    (GeometryLegacy.create (Some (mkPoint3D 1 2 0)) None)
    (GeometryLegacy.mkSize 4 4 (Some 2%Z) None)
    (GeometryLegacy.mkSpacing 2 1 None).


End Samples.

(** * Properties *)

Example offsets_scenario_offset :
  Offsets.indexToOffset [4; 4; 2; 1] [1; 1; 1; 0] = 21.
Proof. reflexivity. Qed.

Example offsets_scenario_index :
  Offsets.offsetToIndex [4; 4; 2; 1] 21 = Return [1; 1; 1; 0].
Proof. reflexivity. Qed.

(** ** The offset round trip *)

Module OffsetsFacts.
Import Offsets.

Lemma partialOffset_S size index k :
  partialOffset size index (S k)
  = partialOffset size index k + default 0 (index !! k) * getDimSize size k.
Proof. reflexivity. Qed.

Lemma getDimSize_0 size : getDimSize size 0 = 1.
Proof. reflexivity. Qed.

Lemma getDimSize_S size k n :
  size !! k = Some n -> getDimSize size (S k) = getDimSize size k * n.
Proof.
  intros Hk. unfold getDimSize. rewrite (take_S_r _ _ _ Hk).
  rewrite foldr_app. simpl.
  generalize (take k size). intros l.
  induction l as [|a l IH]; simpl; [lia | rewrite IH; lia].
Qed.

Lemma indexToOffset_loop_partial size pre rest :
  indexToOffset_loop size rest (length pre)
    (partialOffset size (pre ++ rest) (length pre))
  = partialOffset size (pre ++ rest) (length (pre ++ rest)).
Proof.
  revert pre. induction rest as [|v rest IH]; intros pre.
  - rewrite app_nil_r. reflexivity.
  - specialize (IH (pre ++ [v])).
    rewrite <- app_assoc in IH.
    change ([v] ++ rest) with (v :: rest) in IH.
    rewrite (length_app pre [v]) in IH. simpl length in IH.
    replace (length pre + 1)%nat with (S (length pre)) in IH by lia.
    cbn [partialOffset] in IH.
    rewrite list_lookup_middle in IH by reflexivity.
    exact IH.
Qed.

Lemma indexToOffset_partial size index :
  indexToOffset size index = partialOffset size index (length index).
Proof. exact (indexToOffset_loop_partial size [] index). Qed.

Section InBounds.
Variables (size : Size) (index : Index).
Hypothesis Hin : inBounds size index.

Lemma inBounds_length : length index = length size.
Proof. exact (Forall2_length _ _ _ Hin). Qed.

Lemma inBounds_lookup k :
  (k < length size)%nat ->
  exists x n, index !! k = Some x /\ size !! k = Some n /\ 0 <= x < n.
Proof.
  intros Hk.
  destruct (lookup_lt_is_Some_2 size k Hk) as [n Hn].
  destruct (Forall2_lookup_r _ _ _ _ _ Hin Hn) as (x & Hx & Hb).
  eauto.
Qed.

(** The strides are positive and each partial offset stays below the
    stride of the next dimension. *)
Lemma partialOffset_bounds k :
  (k <= length size)%nat ->
  0 < getDimSize size k /\
  0 <= partialOffset size index k < getDimSize size k.
Proof.
  induction k as [|k IH]; intros Hk.
  - rewrite getDimSize_0. simpl. lia.
  - destruct IH as [Hpos Hb]; [lia|].
    destruct (inBounds_lookup k) as (x & n & Hx & Hn & Hxn); [lia|].
    rewrite (getDimSize_S _ _ _ Hn), partialOffset_S, Hx.
    simpl default. nia.
Qed.

Lemma offsetToIndex_loop_spec i values :
  (i < length size)%nat ->
  length values = length size ->
  exists res,
    offsetToIndex_loop size i (partialOffset size index (S i)) values
      = Return (partialOffset size index 1, res)
    /\ length res = length size
    /\ forall j, res !! j =
          if decide (1 <= j <= i)%nat then index !! j else values !! j.
Proof.
  revert values. induction i as [|i IH]; intros values Hi Hlen.
  - exists values. simpl offsetToIndex_loop.
    split; [reflexivity|]. split; [exact Hlen|].
    intros j. destruct (decide (1 <= j <= 0)%nat); [lia | reflexivity].
  - destruct (partialOffset_bounds (S i)) as [Hpos Hb]; [lia|].
    destruct (inBounds_lookup (S i) Hi) as (x & n & Hx & Hn & Hxn).
    cbn [offsetToIndex_loop].
    destruct (decide (getDimSize size (S i) = 0)) as [Hz|_]; [lia|].
    assert (Hq : partialOffset size index (S (S i)) / getDimSize size (S i) = x).
    { rewrite (partialOffset_S _ _ (S i)), Hx. simpl default.
      symmetry. apply (Z.div_unique_pos _ _ x (partialOffset size index (S i)));
        [exact Hb | lia]. }
    rewrite Hq.
    replace (partialOffset size index (S (S i)) - x * getDimSize size (S i))
      with (partialOffset size index (S i))
      by (rewrite (partialOffset_S _ _ (S i)), Hx; simpl default; lia).
    destruct (IH (<[S i:=x]> values)) as (res & Hres & Hl & Hlook);
      [lia | rewrite length_insert; exact Hlen |].
    exists res. split; [exact Hres|]. split; [exact Hl|].
    intros j. rewrite Hlook.
    destruct (decide (1 <= j <= i)%nat), (decide (1 <= j <= S i)%nat);
      try lia; try reflexivity.
    + destruct (decide (j = S i)) as [->|Hne].
      * rewrite list_lookup_insert_eq by lia. symmetry. exact Hx.
      * lia.
    + rewrite list_lookup_insert_ne by lia. reflexivity.
Qed.
End InBounds.

End OffsetsFacts.

(** C2: on a size with at least one dimension, every in-bounds index is
    recovered exactly from its memory offset,
    [offsetToIndex(indexToOffset(x)) == x]. *)
Theorem offsetToIndex_indexToOffset (size index : list Z) :
  size <> [] ->
  Offsets.inBounds size index ->
  Offsets.offsetToIndex size (Offsets.indexToOffset size index) = Return index.
Proof.
  intros Hne Hin.
  pose proof (OffsetsFacts.inBounds_length size index Hin) as Hlen.
  assert (Hpos : (0 < length size)%nat) by (destruct size; simpl; [congruence | lia]).
  unfold Offsets.offsetToIndex.
  rewrite OffsetsFacts.indexToOffset_partial, Hlen.
  destruct (OffsetsFacts.offsetToIndex_loop_spec size index Hin
              (length size - 1) (replicate (length size) 0))
    as (res & Hres & Hl & Hlook); [lia | apply length_replicate |].
  replace (S (length size - 1)) with (length size) in Hres by lia.
  rewrite Hres. simpl bind.
  destruct res as [|r res]; [simpl in Hl; lia|].
  f_equal. apply list_eq. intros j.
  destruct (OffsetsFacts.inBounds_lookup size index Hin 0 Hpos)
    as (x0 & n0 & Hx0 & _ & _).
  destruct j as [|j].
  - simpl. rewrite Hx0. simpl. f_equal.
    rewrite OffsetsFacts.getDimSize_0. lia.
  - rewrite list_lookup_insert_ne by lia.
    rewrite Hlook.
    destruct (decide (1 <= S j <= length size - 1)%nat) as [_|Hout];
      [reflexivity|].
    transitivity (@None Z);
      [apply lookup_replicate_None | symmetry; apply lookup_ge_None]; lia.
Qed.

Lemma offsetToIndex_indexToOffset_witness :
  Offsets.offsetToIndex [4; 4; 2; 1] (Offsets.indexToOffset [4; 4; 2; 1] [3; 0; 1; 0])
  = Return [3; 0; 1; 0].
Proof.
  apply offsetToIndex_indexToOffset.
  - discriminate.
  - unfold Offsets.inBounds. repeat constructor; lia.
Defined.

(** ** Rounding and division *)

Section Numbers.
Import MathNS.
Local Open Scope Q_scope.

(** A number closer than one half to an integer rounds to it. *)
Lemma round_near (q : Q) (z : Z) :
  Qabs (q - inject_Z z) < 1 # 2 -> round q = z.
Proof.
  intros Hnear. apply Qabs_Qlt_condition in Hnear. destruct Hnear as [Hlo Hhi].
  unfold round.
  pose proof (Qfloor_le (q + (1 # 2))) as Hle.
  pose proof (Qlt_floor (q + (1 # 2))) as Hlt.
  set (f := Qfloor (q + (1 # 2))) in *.
  assert (H1 : inject_Z f < inject_Z z + 1) by lra.
  assert (H2 : inject_Z z < inject_Z (f + 1)) by lra.
  change 1 with (inject_Z 1) in H1.
  rewrite <- inject_Z_plus in H1.
  rewrite <- Zlt_Qlt in H1, H2. lia.
Qed.

Lemma inject_Z_minus (a b : Z) : inject_Z (a - b) == inject_Z a - inject_Z b.
Proof.
  unfold Z.sub, Qminus. rewrite inject_Z_plus, inject_Z_opp. reflexivity.
Qed.

Lemma round_inject_Z (q : Q) (z : Z) : q == inject_Z z -> round q = z.
Proof.
  intros Heq. apply round_near, Qabs_Qlt_condition. split; lra.
Qed.

Lemma Qeq_bool_pos (q : Q) : 0 < q -> Qeq_bool q 0 = false.
Proof.
  intros Hq. destruct (Qeq_bool q 0) eqn:E; [|reflexivity].
  apply Qeq_bool_iff in E. lra.
Qed.

Lemma div_finite (a b : Q) : ~ b == 0 -> div a b = Finite (a / b).
Proof.
  intros Hb. unfold div. destruct (Qeq_bool b 0) eqn:E; [|reflexivity].
  apply Qeq_bool_iff in E. contradiction.
Qed.

Lemma Qlt_bool_iff (a b : Q) : Qlt_bool a b = true <-> a < b.
Proof.
  unfold Qlt_bool. rewrite negb_true_iff.
  split.
  - intros H. apply Qnot_le_lt. intros Hle.
    apply Qle_bool_iff in Hle. congruence.
  - intros H. destruct (Qle_bool b a) eqn:E; [|reflexivity].
    apply Qle_bool_iff in E. lra.
Qed.

Lemma Qlt_bool_false_iff (a b : Q) : Qlt_bool a b = false <-> b <= a.
Proof.
  unfold Qlt_bool. rewrite negb_false_iff. apply Qle_bool_iff.
Qed.
End Numbers.

(** ** Index to world and back *)

Section WorldRoundTrip.
Import MathNS.
Context {ops : MathOps}.
Local Open Scope Q_scope.

(** [getSpacing] refreshes the spacing and nothing else; a second call
    finds it fresh. *)
Lemma getSpacing_state (g g' : Geometry.t) (s : list Q) :
  Geometry.getSpacing g = Return (s, g') ->
  Geometry.origins g' = Geometry.origins g
  /\ Geometry.size g' = Geometry.size g
  /\ Geometry.orientation g' = Geometry.orientation g
  /\ Geometry.spacing g' = s
  /\ Geometry.newOrigins g' = false.
Proof.
  unfold Geometry.getSpacing.
  destruct (Geometry.newOrigins g) eqn:Hnew.
  - destruct (Geometry.getSliceGeometrySpacing g) as [[[s'|] w]|e];
      simpl; try discriminate.
    destruct (Geometry.arraySet 2 s' (Geometry.spacing g)) as [values|e];
      simpl; try discriminate.
    intros [= <- <-]. simpl. auto.
  - intros [= <- <-]. auto.
Qed.

Lemma getSpacing_again (g g' : Geometry.t) (s : list Q) :
  Geometry.getSpacing g = Return (s, g') ->
  Geometry.getSpacing g' = Return (s, g').
Proof.
  intros H. destruct (getSpacing_state _ _ _ H) as (_ & _ & _ & Hs & Hn).
  unfold Geometry.getSpacing. rewrite Hn, Hs. reflexivity.
Qed.

Lemma flipK_involutive (size : list Z) (n : Z) (k : Q) :
  size !! 2%nat = Some n ->
  exists k' k'', Geometry.flipK size k = Return k'
                 /\ Geometry.flipK size k' = Return k''
                 /\ k' == inject_Z n - 1 - k /\ k'' == k.
Proof.
  intros Hn. unfold Geometry.flipK. rewrite Hn. simpl.
  eexists _, _. repeat split; try reflexivity. ring.
Qed.

(** A world point within half a voxel of the centre of voxel [(i, j, k)]
    is mapped back to that voxel. *)
Lemma round_div_near (o s w : Q) (i : Z) :
  0 < s ->
  Qabs (w - (o + inject_Z i * s)) < (1 # 2) * s ->
  exists q, div (w - o) s = Finite q /\ round q = i.
Proof.
  intros Hs Hw. exists ((w - o) / s). split.
  - apply div_finite. lra.
  - apply round_near.
    apply Qabs_Qlt_condition in Hw. destruct Hw as [Hlo Hhi].
    apply Qabs_Qlt_condition.
    assert (E : (w - o) / s - inject_Z i == (w - (o + inject_Z i * s)) / s)
      by (field; lra).
    rewrite E. split.
    + apply Qlt_shift_div_l; [exact Hs|]. lra.
    + apply Qlt_shift_div_r; [exact Hs|]. lra.
Qed.

Lemma round_div_exact (o s : Q) (i : Z) :
  0 < s ->
  exists q, div (o + inject_Z i * s - o) s = Finite q /\ round q = i.
Proof.
  intros Hs. apply round_div_near; [exact Hs|].
  apply Qabs_Qlt_condition. split; lra.
Qed.

Lemma round_div_eq (o s w : Q) (i : Z) :
  0 < s ->
  w == o + inject_Z i * s ->
  exists q, div (w - o) s = Finite q /\ round q = i.
Proof.
  intros Hs Hw. apply round_div_near; [exact Hs|].
  apply Qabs_Qlt_condition. split; lra.
Qed.

Lemma tupleEq_refl (a : list Q) : Geometry.tupleEq a a.
Proof. induction a; constructor; [reflexivity | assumption]. Qed.
End WorldRoundTrip.

(** C1: for an in-bounds index [x] of a geometry with the three spatial
    dimensions and positive spacing, [worldToIndex(indexToWorld(x))] is [x];
    [indexToWorld] places slice [k] at [flippedK = (numberOfSlices - 1) - k]
    spacings from the origin and [worldToIndex] flips it back. *)
Theorem worldToIndex_indexToWorld {ops : MathNS.MathOps}
    (g g' : Geometry.t) (o : MathNS.Point3D) (s : list Q) (x : list Z) :
  Geometry.inBounds (Geometry.size g) x ->
  (3 <= length (Geometry.size g))%nat ->
  Geometry.getOrigin g = Some o ->
  Geometry.getSpacing g = Return (s, g') ->
  (3 <= length s)%nat ->
  Forall (fun v => (0 < v)%Q) s ->
  exists p x',
    Geometry.indexToWorld g (map inject_Z x) = Return (p, g')
    /\ Geometry.worldToIndex g' p = Return (x', g')
    /\ Geometry.tupleEq x' (map inject_Z x)
    /\ exists n k s2 pz,
         Geometry.size g !! 2%nat = Some n /\ x !! 2%nat = Some k
         /\ s !! 2%nat = Some s2 /\ p !! 2%nat = Some pz
         /\ (pz == MathNS.getZ o + inject_Z ((n - 1) - k) * s2)%Q.
Proof.
  intros Hin Hdim Ho Hsp Hlen Hpos.
  destruct (getSpacing_state _ _ _ Hsp) as (Hor & Hsz & _ & _ & _).
  pose proof (getSpacing_again _ _ _ Hsp) as Hsp'.
  assert (Ho' : Geometry.getOrigin g' = Some o)
    by (unfold Geometry.getOrigin in *; rewrite Hor; exact Ho).
  unfold Geometry.inBounds in Hin.
  destruct (Geometry.size g) as [|n0 [|n1 [|n2 nr]]] eqn:Hsize;
    simpl in Hdim; try lia.
  destruct x as [|x0 [|x1 [|x2 xr]]];
    try (exfalso; apply Forall2_length in Hin; simpl in Hin; lia).
  destruct s as [|s0 [|s1 [|s2 sr]]]; simpl in Hlen; try lia.
  apply Forall_cons in Hpos as [Hs0 Hpos].
  apply Forall_cons in Hpos as [Hs1 Hpos].
  apply Forall_cons in Hpos as [Hs2 _].
  set (px := (MathNS.getX o + inject_Z x0 * s0)%Q).
  set (py := (MathNS.getY o + inject_Z x1 * s1)%Q).
  set (pz := (MathNS.getZ o + (inject_Z n2 - 1 - inject_Z x2) * s2)%Q).
  destruct (round_div_eq (MathNS.getX o) s0 px x0 Hs0) as (q0 & Hq0 & Hr0);
    [reflexivity|].
  destruct (round_div_eq (MathNS.getY o) s1 py x1 Hs1) as (q1 & Hq1 & Hr1);
    [reflexivity|].
  destruct (round_div_eq (MathNS.getZ o) s2 pz (n2 - 1 - x2) Hs2)
    as (q2 & Hq2 & Hr2).
  { unfold pz. rewrite !inject_Z_minus. reflexivity. }
  exists (px :: py :: pz :: map inject_Z xr).
  eexists. split; [|split; [|split]].
  - unfold Geometry.indexToWorld. rewrite Hsp. simpl.
    unfold Geometry.flipK, Geometry.getSize. rewrite Hsz. simpl.
    rewrite Ho. reflexivity.
  - unfold Geometry.worldToIndex. rewrite Hsp'. simpl.
    rewrite Ho'. simpl. rewrite Hq0. simpl. rewrite Hq1. simpl.
    rewrite Hq2. simpl.
    unfold Geometry.flipK, Geometry.getSize. rewrite Hsz. simpl.
    reflexivity.
  - rewrite Hr0, Hr1, Hr2.
    repeat constructor; try reflexivity; try apply tupleEq_refl.
    rewrite !inject_Z_minus. change (inject_Z 1) with 1%Q. ring.
  - exists n2, x2, s2, pz. repeat split; try reflexivity.
    unfold pz. rewrite !inject_Z_minus. reflexivity.
Qed.


(** ** The slice lookup *)

Section SliceIndex.
Import MathNS.
Local Open Scope Q_scope.

Lemma closestLoop_spec (point : Point3D) (all : list Point3D) :
  forall rest i minDist c,
    drop i all = rest ->
    Geometry.closestSoFar point all i minDist c ->
    Geometry.isClosest point all
      (Geometry.closestLoop point rest i minDist c).
Proof.
  induction rest as [|o rest IH]; intros i minDist c Hdrop Hinv.
  - simpl. destruct Hinv as (oc & Hoc & -> & Hle & Hlt).
    exists oc. split; [exact Hoc|]. split; [|exact Hlt].
    intros j oj Hj. apply (Hle j oj); [|exact Hj].
    apply lookup_lt_Some in Hj.
    assert (length all <= i)%nat; [|lia].
    rewrite <- (Nat.sub_0_le (length all) i), <- length_drop, Hdrop.
    reflexivity.
  - assert (Hi : all !! i = Some o).
    { rewrite <- (Nat.add_0_r i), <- lookup_drop, Hdrop. reflexivity. }
    assert (Hdrop' : drop (S i) all = rest).
    { rewrite (drop_S _ _ _ Hi) in Hdrop. congruence. }
    destruct Hinv as (oc & Hoc & Hmin & Hle & Hlt).
    simpl. destruct (Qlt_bool (squaredDistance point o) minDist) eqn:E.
    + apply Qlt_bool_iff in E.
      apply IH; [exact Hdrop'|].
      exists o. split; [exact Hi|]. split; [reflexivity|]. split.
      * intros j oj Hj Hoj. destruct (decide (j = i)) as [->|Hne].
        -- rewrite Hi in Hoj. injection Hoj as <-. lra.
        -- assert (minDist <= squaredDistance point oj)
             by (apply (Hle j); [lia | exact Hoj]).
           lra.
      * intros j oj Hj Hoj.
        assert (minDist <= squaredDistance point oj)
          by (apply (Hle j); [lia | exact Hoj]).
        lra.
    + apply Qlt_bool_false_iff in E.
      apply IH; [exact Hdrop'|].
      exists oc. split; [exact Hoc|]. split; [exact Hmin|]. split.
      * intros j oj Hj Hoj. destruct (decide (j = i)) as [->|Hne].
        -- rewrite Hi in Hoj. injection Hoj as <-. exact E.
        -- apply (Hle j); [lia | exact Hoj].
      * exact Hlt.
Qed.

Lemma closestLoop_start (point o0 : Point3D) (origins : list Point3D) :
  origins !! 0%nat = Some o0 ->
  Geometry.isClosest point origins
    (Geometry.closestLoop point origins 0 (squaredDistance point o0) 0).
Proof.
  intros H0. apply closestLoop_spec; [reflexivity|].
  exists o0. split; [exact H0|]. split; [reflexivity|].
  split; intros j oj Hj; lia.
Qed.

(** The closest position is unique: two positions that both qualify are
    the same. *)
Lemma isClosest_unique (point : Point3D) (origins : list Point3D) (c c' : nat) :
  Geometry.isClosest point origins c ->
  Geometry.isClosest point origins c' -> c = c'.
Proof.
  intros (oc & Hoc & Hle & Hlt) (oc' & Hoc' & Hle' & Hlt').
  destruct (Nat.lt_total c c') as [H|[H|H]]; [|exact H|].
  - pose proof (Hlt' c oc H Hoc). pose proof (Hle c' oc' Hoc'). lra.
  - pose proof (Hlt c' oc' H Hoc'). pose proof (Hle' c oc Hoc). lra.
Qed.
End SliceIndex.

Section SliceIndexSides.
Import MathNS.
Local Open Scope Q_scope.

(** The current revision: the next index on a negative dot product. *)
Lemma getSliceIndex_current (g : Geometry.t) (point : Point3D) :
  Geometry.origins g <> [] ->
  exists c oc,
    Geometry.isClosest point (Geometry.origins g) c
    /\ Geometry.origins g !! c = Some oc
    /\ let dotProd :=
         dotProduct (Geometry.normal (Geometry.orientation g)) (minus point oc) in
       (dotProd < 0 -> Geometry.getSliceIndex g point = Return (c + 1)%nat)
       /\ (0 <= dotProd -> Geometry.getSliceIndex g point = Return c).
Proof.
  intros Hne.
  destruct (Geometry.origins g) as [|o0 rest] eqn:Horigins; [congruence|].
  pose proof (closestLoop_start point o0 (o0 :: rest) eq_refl) as Hc.
  set (c := Geometry.closestLoop point (o0 :: rest) 0
              (squaredDistance point o0) 0) in *.
  destruct Hc as (oc & Hoc & Hle & Hlt).
  exists c, oc. split; [exists oc; auto|]. split; [exact Hoc|].
  unfold Geometry.getSliceIndex. rewrite Horigins.
  change ((o0 :: rest) !! 0%nat) with (Some o0).
  cbn [Geometry.defined bind]. fold c.
  rewrite Hoc. cbn [Geometry.defined bind].
  split; intros Hdot.
  - apply Qlt_bool_iff in Hdot. rewrite Hdot. reflexivity.
  - apply Qlt_bool_false_iff in Hdot. rewrite Hdot. reflexivity.
Qed.

(** The first revision: the next index on a positive dot product. *)
Lemma getSliceIndex_legacy (g : GeometryLegacy.t) (point : Point3D) :
  GeometryLegacy.origins g <> [] ->
  exists c oc,
    Geometry.isClosest point (GeometryLegacy.origins g) c
    /\ GeometryLegacy.origins g !! c = Some oc
    /\ let dotProd :=
         dotProduct (Geometry.normal (GeometryLegacy.orientation g))
                    (minus point oc) in
       (0 < dotProd -> GeometryLegacy.getSliceIndex g point = Return (c + 1)%nat)
       /\ (dotProd <= 0 -> GeometryLegacy.getSliceIndex g point = Return c).
Proof.
  intros Hne.
  destruct (GeometryLegacy.origins g) as [|o0 rest] eqn:Horigins; [congruence|].
  pose proof (closestLoop_start point o0 (o0 :: rest) eq_refl) as Hc.
  set (c := Geometry.closestLoop point (o0 :: rest) 0
              (squaredDistance point o0) 0) in *.
  destruct Hc as (oc & Hoc & Hle & Hlt).
  exists c, oc. split; [exists oc; auto|]. split; [exact Hoc|].
  unfold GeometryLegacy.getSliceIndex. rewrite Horigins.
  change ((o0 :: rest) !! 0%nat) with (Some o0).
  cbn [Geometry.defined bind]. fold c.
  rewrite Hoc. cbn [Geometry.defined bind].
  split; intros Hdot.
  - apply Qlt_bool_iff in Hdot. rewrite Hdot. reflexivity.
  - apply Qlt_bool_false_iff in Hdot. rewrite Hdot. reflexivity.
Qed.
End SliceIndexSides.


(** ** The slice spacing derived from the origins *)

Section SliceSpacing.
Import MathNS.
Context {ops : MathOps}.
Local Open Scope Q_scope.

Lemma hasZeroGap_cons (o2 : Matrix33) (p1 p2 : Point3D) (rest : list Point3D) :
  Geometry.hasZeroGap o2 (p1 :: p2 :: rest)
  <-> Geometry.sliceGap o2 p1 p2 == 0 \/ Geometry.hasZeroGap o2 (p2 :: rest).
Proof.
  split.
  - intros (i & q1 & q2 & H1 & H2 & Hz). destruct i as [|i].
    + left. simpl in H1, H2. injection H1 as <-. injection H2 as <-. exact Hz.
    + right. exists i, q1, q2. auto.
  - intros [Hz | (i & q1 & q2 & H1 & H2 & Hz)].
    + exists 0%nat, p1, p2. auto.
    + exists (S i), q1, q2. auto.
Qed.

Lemma hasZeroGap_short (o2 : Matrix33) (rest : list Point3D) :
  (length rest <= 1)%nat -> ~ Geometry.hasZeroGap o2 rest.
Proof.
  intros Hlen (i & q1 & q2 & H1 & H2 & _).
  apply lookup_lt_Some in H2. lia.
Qed.

(** The loop throws exactly when it meets a zero distance; otherwise it
    returns the spacing of [firstGap]. *)
Lemma sliceSpacingLoop_spec (o2 : Matrix33) (rest : list Point3D) :
  forall spacing deltas,
    (Geometry.hasZeroGap o2 rest
     /\ Geometry.sliceSpacingLoop o2 rest spacing deltas
        = Throw ZeroSliceSpacing)
    \/ (~ Geometry.hasZeroGap o2 rest
        /\ exists deltas',
             Geometry.sliceSpacingLoop o2 rest spacing deltas
             = Return (Geometry.firstGap o2 rest spacing, deltas')).
Proof.
  induction rest as [|p1 rest IH]; intros spacing deltas.
  - right. split; [apply hasZeroGap_short; simpl; lia|].
    exists deltas. destruct spacing; reflexivity.
  - destruct rest as [|p2 rest].
    + right. split; [apply hasZeroGap_short; simpl; lia|].
      exists deltas. destruct spacing; reflexivity.
    + cbn [Geometry.sliceSpacingLoop].
      destruct (Qeq_bool (Geometry.sliceGap o2 p1 p2) 0) eqn:E.
      * left. split; [|reflexivity].
        apply hasZeroGap_cons. left. apply Qeq_bool_iff. exact E.
      * assert (Hnz : ~ Geometry.sliceGap o2 p1 p2 == 0).
        { intros Hz. apply Qeq_bool_iff in Hz. congruence. }
        assert (Hstep : forall sp d,
          (Geometry.hasZeroGap o2 (p2 :: rest)
           /\ Geometry.sliceSpacingLoop o2 (p2 :: rest) (Some sp) d
              = Throw ZeroSliceSpacing)
          \/ (~ Geometry.hasZeroGap o2 (p2 :: rest)
              /\ exists deltas',
                   Geometry.sliceSpacingLoop o2 (p2 :: rest) (Some sp) d
                   = Return (Some sp, deltas'))).
        { intros sp d. destruct (IH (Some sp) d) as [H|H]; [left|right]; exact H. }
        assert (Hlift : forall (r : result (option Q * list Q)) sp,
          ((Geometry.hasZeroGap o2 (p2 :: rest) /\ r = Throw ZeroSliceSpacing)
           \/ (~ Geometry.hasZeroGap o2 (p2 :: rest)
               /\ exists deltas', r = Return (Some sp, deltas'))) ->
          (Geometry.hasZeroGap o2 (p1 :: p2 :: rest) /\ r = Throw ZeroSliceSpacing)
          \/ (~ Geometry.hasZeroGap o2 (p1 :: p2 :: rest)
              /\ exists deltas', r = Return (Some sp, deltas'))).
        { intros r sp [[Hz Hr]|[Hz Hr]]; [left|right]; (split; [|exact Hr]).
          - apply hasZeroGap_cons. right. exact Hz.
          - rewrite hasZeroGap_cons. intros [H|H]; contradiction. }
        destruct spacing as [sp|].
        -- destruct (isSimilar sp (Geometry.sliceGap o2 p1 p2) BIG_EPSILON);
             apply Hlift, Hstep.
        -- apply Hlift, Hstep.
Qed.
End SliceSpacing.


(** ** Orientation of a view *)

(** C9: without a target orientation [getViewOrientation] returns the
    identity; with one, and the simplified image orientation invertible, it
    returns the component-wise absolute value of
    [inverse(simplify(imageOrientation)) * targetOrientation]; so an
    identity image orientation without a target gives the identity. *)
Theorem getViewOrientation_spec {ops : MathNS.MathOps}
    (imageOrientation : MathNS.Matrix33) :
  LayerGroup.getViewOrientation imageOrientation None
    = Return MathNS.getIdentityMat33
  /\ (forall target inverse,
        MathNS.getInverse (MathNS.asOneAndZeros imageOrientation)
          = Some inverse ->
        LayerGroup.getViewOrientation imageOrientation (Some target)
          = Return (MathNS.getAbs (MathNS.multiply inverse target)))
  /\ LayerGroup.getViewOrientation MathNS.getIdentityMat33 None
       = Return MathNS.getIdentityMat33.
Proof.
  split; [reflexivity|]. split; [|reflexivity].
  intros target inverse Hinv. unfold LayerGroup.getViewOrientation.
  rewrite Hinv. reflexivity.
Qed.

(** ** Zooming about a centre *)

Section ScaledOffset.
Import MathNS.
Local Open Scope Q_scope.

End ScaledOffset.




(** ** Fitting the layers to the container *)

Section FitScale.
Import MathNS.
Context {L : Type} {api : LayerGroup.LayerAPI L}.
Local Open Scope Q_scope.

Lemma maxSizeLoop_no_view (ls : list L) (m : LayerGroup.XY) :
  Forall (fun l => LayerGroup.isViewLayer l = false) ls ->
  LayerGroup.maxSizeLoop ls m = m.
Proof.
  revert m. induction ls as [|l ls IH]; intros m Hno; [reflexivity|].
  apply Forall_cons in Hno as [Hl Hno]. simpl. rewrite Hl. apply IH, Hno.
Qed.

(** The loop never lowers the maximum, and every view layer it passes is
    within it. *)
Lemma maxSizeLoop_bounds (ls : list L) :
  forall m,
    LayerGroup.xOf m <= LayerGroup.xOf (LayerGroup.maxSizeLoop ls m)
    /\ LayerGroup.yOf m <= LayerGroup.yOf (LayerGroup.maxSizeLoop ls m)
    /\ forall l, In l ls -> LayerGroup.isViewLayer l = true ->
         LayerGroup.xOf (LayerGroup.getImageWorldSize l)
           <= LayerGroup.xOf (LayerGroup.maxSizeLoop ls m)
         /\ LayerGroup.yOf (LayerGroup.getImageWorldSize l)
              <= LayerGroup.yOf (LayerGroup.maxSizeLoop ls m).
Proof.
  induction ls as [|l ls IH]; intros m.
  - simpl. split; [lra|]. split; [lra|]. intros l [].
  - simpl. destruct (LayerGroup.isViewLayer l) eqn:Hview.
    + set (size := LayerGroup.getImageWorldSize l).
      set (m' := LayerGroup.mkXY _ _).
      destruct (IH m') as (Hx & Hy & Hin).
      assert (Hmx : LayerGroup.xOf m <= LayerGroup.xOf m'
                    /\ LayerGroup.xOf size <= LayerGroup.xOf m').
      { unfold m'. simpl.
        destruct (Qlt_bool (LayerGroup.xOf m) (LayerGroup.xOf size)) eqn:E;
          [apply Qlt_bool_iff in E | apply Qlt_bool_false_iff in E];
          split; lra. }
      assert (Hmy : LayerGroup.yOf m <= LayerGroup.yOf m'
                    /\ LayerGroup.yOf size <= LayerGroup.yOf m').
      { unfold m'. simpl.
        destruct (Qlt_bool (LayerGroup.yOf m) (LayerGroup.yOf size)) eqn:E;
          [apply Qlt_bool_iff in E | apply Qlt_bool_false_iff in E];
          split; lra. }
      split; [lra|]. split; [lra|].
      intros l' [<-|Hl'] Hv; [fold size; split; lra | apply Hin; assumption].
    + destruct (IH m) as (Hx & Hy & Hin).
      split; [exact Hx|]. split; [exact Hy|].
      intros l' [<-|Hl'] Hv; [congruence | apply Hin; assumption].
Qed.

Lemma getMaxSize_some (lg : LayerGroup.t L) (m : LayerGroup.XY) :
  LayerGroup.getMaxSize lg = Some m ->
  m = LayerGroup.maxSizeLoop (LayerGroup.layers lg) (LayerGroup.mkXY 0 0).
Proof.
  unfold LayerGroup.getMaxSize.
  destruct (_ && _); [discriminate | intros [= <-]; reflexivity].
Qed.

(** [min(w / mx, h / my)] is the largest scale under which both extents
    fit. *)
Lemma min_div_largest (w h mx my : Q) :
  0 < mx -> 0 < my ->
  exists s, min (div w mx) (div h my) = Finite s
    /\ s * mx <= w /\ s * my <= h
    /\ forall s', s' * mx <= w -> s' * my <= h -> s' <= s.
Proof.
  intros Hmx Hmy.
  rewrite !div_finite by lra. simpl.
  assert (Ea : (w / mx) * mx == w) by (field; lra).
  assert (Eb : (h / my) * my == h) by (field; lra).
  eexists. split; [reflexivity|].
  destruct (Qle_bool (w / mx) (h / my)) eqn:E.
  - apply Qle_bool_iff in E. split; [lra|]. split.
    + rewrite <- Eb. apply Qmult_le_compat_r; [exact E | lra].
    + intros s' Hx _. apply Qle_shift_div_l; assumption.
  - assert (E' : h / my <= w / mx).
    { apply Qlt_le_weak, Qnot_le_lt. intros Hle.
      apply Qle_bool_iff in Hle. congruence. }
    split; [|split; [lra|]].
    + rewrite <- Ea. apply Qmult_le_compat_r; [exact E' | lra].
    + intros s' _ Hy. apply Qle_shift_div_l; assumption.
Qed.

Lemma Qeq_refl_eq (a b : Q) : a = b -> a == b.
Proof. intros ->. reflexivity. Qed.

(** The maximum the loop returns is the one it started from or the extent
    of a view layer it passed. *)
Lemma maxSizeLoop_attained (ls : list L) :
  forall m,
    (LayerGroup.xOf (LayerGroup.maxSizeLoop ls m) = LayerGroup.xOf m
     \/ exists l, In l ls /\ LayerGroup.isViewLayer l = true
          /\ LayerGroup.xOf (LayerGroup.getImageWorldSize l)
             = LayerGroup.xOf (LayerGroup.maxSizeLoop ls m))
    /\ (LayerGroup.yOf (LayerGroup.maxSizeLoop ls m) = LayerGroup.yOf m
        \/ exists l, In l ls /\ LayerGroup.isViewLayer l = true
             /\ LayerGroup.yOf (LayerGroup.getImageWorldSize l)
                = LayerGroup.yOf (LayerGroup.maxSizeLoop ls m)).
Proof.
  induction ls as [|l ls IH]; intros m; [simpl; auto|].
  simpl. destruct (LayerGroup.isViewLayer l) eqn:Hview.
  - destruct (IH (LayerGroup.mkXY
        (if Qlt_bool (LayerGroup.xOf m)
              (LayerGroup.xOf (LayerGroup.getImageWorldSize l))
         then LayerGroup.xOf (LayerGroup.getImageWorldSize l)
         else LayerGroup.xOf m)
        (if Qlt_bool (LayerGroup.yOf m)
              (LayerGroup.yOf (LayerGroup.getImageWorldSize l))
         then LayerGroup.yOf (LayerGroup.getImageWorldSize l)
         else LayerGroup.yOf m))) as [Hx Hy].
    simpl in Hx, Hy. split.
    + destruct Hx as [Hx | (l' & Hin & Hv & Hx)];
        [|right; exists l'; auto].
      rewrite Hx.
      destruct (Qlt_bool (LayerGroup.xOf m) _);
        [right; exists l; auto | left; reflexivity].
    + destruct Hy as [Hy | (l' & Hin & Hv & Hy)];
        [|right; exists l'; auto].
      rewrite Hy.
      destruct (Qlt_bool (LayerGroup.yOf m) _);
        [right; exists l; auto | left; reflexivity].
  - destruct (IH m) as [Hx Hy]. split.
    + destruct Hx as [Hx | (l' & Hin & Hv & Hx)]; [left; exact Hx|].
      right. exists l'. auto.
    + destruct Hy as [Hy | (l' & Hin & Hv & Hy)]; [left; exact Hy|].
      right. exists l'. auto.
Qed.

(** [getMaxSize] is undefined exactly when no view layer has a positive
    width or height. *)
Lemma getMaxSize_none_iff (lg : LayerGroup.t L) :
  LayerGroup.getMaxSize lg = None
  <-> forall l, In l (LayerGroup.layers lg) ->
        LayerGroup.isViewLayer l = true ->
        LayerGroup.xOf (LayerGroup.getImageWorldSize l) <= 0
        /\ LayerGroup.yOf (LayerGroup.getImageWorldSize l) <= 0.
Proof.
  unfold LayerGroup.getMaxSize.
  pose proof (maxSizeLoop_bounds (LayerGroup.layers lg) (LayerGroup.mkXY 0 0))
    as (Hx & Hy & Hin).
  pose proof (maxSizeLoop_attained (LayerGroup.layers lg) (LayerGroup.mkXY 0 0))
    as [Ax Ay].
  simpl in Hx, Hy, Ax, Ay.
  set (m := LayerGroup.maxSizeLoop _ _) in *.
  destruct (Qeq_bool (LayerGroup.xOf m) 0 && Qeq_bool (LayerGroup.yOf m) 0)
    eqn:E.
  - apply andb_true_iff in E as [Ex Ey].
    apply Qeq_bool_iff in Ex. apply Qeq_bool_iff in Ey.
    split; [|reflexivity].
    intros _ l Hl Hv. destruct (Hin l Hl Hv). split; lra.
  - split; [discriminate|]. intros Hno. exfalso.
    assert (Zx : LayerGroup.xOf m == 0).
    { destruct Ax as [-> | (l & Hl & Hv & Hlx)]; [reflexivity|].
      apply Qeq_refl_eq in Hlx.
      specialize (Hno l Hl Hv). lra. }
    assert (Zy : LayerGroup.yOf m == 0).
    { destruct Ay as [-> | (l & Hl & Hv & Hly)]; [reflexivity|].
      apply Qeq_refl_eq in Hly.
      specialize (Hno l Hl Hv). lra. }
    apply Qeq_bool_iff in Zx. apply Qeq_bool_iff in Zy.
    rewrite Zx, Zy in E. discriminate.
Qed.

(** A view layer with a positive width or height makes it defined. *)
Lemma getMaxSize_positive (lg : LayerGroup.t L) (l : L) :
  In l (LayerGroup.layers lg) -> LayerGroup.isViewLayer l = true ->
  0 < LayerGroup.xOf (LayerGroup.getImageWorldSize l)
  \/ 0 < LayerGroup.yOf (LayerGroup.getImageWorldSize l) ->
  exists m, LayerGroup.getMaxSize lg = Some m.
Proof.
  intros Hl Hv Hpos.
  destruct (LayerGroup.getMaxSize lg) as [m|] eqn:E; [eauto|].
  destruct (proj1 (getMaxSize_none_iff lg) E l Hl Hv). lra.
Qed.
End FitScale.

(** C8, as amended: [calculateFitScale] throws exactly when the container's
    width and height are both zero.  Otherwise it returns undefined exactly
    when no view layer has a positive world width or height, as when there
    is no view layer yet; and when one has, it returns the minimum of
    [containerWidth / maxRealWidth] and [containerHeight / maxRealHeight],
    where [maxRealWidth] is the largest world width among the view layers,
    or 0 if none of them is positive, and [maxRealHeight] likewise; with
    both maxima positive this is the largest scale under which they fit the
    container. *)
Theorem calculateFitScale_spec {L : Type} {api : LayerGroup.LayerAPI L}
    (lg : LayerGroup.t L) :
  let w := LayerGroup.offsetWidth lg in
  let h := LayerGroup.offsetHeight lg in
  ((exists e, LayerGroup.calculateFitScale lg = Throw e)
   <-> w = 0 /\ h = 0)
  /\ (~ (w = 0 /\ h = 0) ->
      Forall (fun l => LayerGroup.isViewLayer l = false) (LayerGroup.layers lg) ->
      LayerGroup.calculateFitScale lg = Return None)
  /\ (~ (w = 0 /\ h = 0) ->
      (LayerGroup.calculateFitScale lg = Return None
       <-> forall l, In l (LayerGroup.layers lg) ->
             LayerGroup.isViewLayer l = true ->
             (LayerGroup.xOf (LayerGroup.getImageWorldSize l) <= 0)%Q
             /\ (LayerGroup.yOf (LayerGroup.getImageWorldSize l) <= 0)%Q))
  /\ (forall l, In l (LayerGroup.layers lg) ->
        LayerGroup.isViewLayer l = true ->
        (0 < LayerGroup.xOf (LayerGroup.getImageWorldSize l))%Q
        \/ (0 < LayerGroup.yOf (LayerGroup.getImageWorldSize l))%Q ->
        exists m, LayerGroup.getMaxSize lg = Some m)
  /\ (~ (w = 0 /\ h = 0) ->
      LayerGroup.calculateFitScale lg = Return None
      \/ exists m, LayerGroup.getMaxSize lg = Some m)
  /\ (~ (w = 0 /\ h = 0) ->
      forall m, LayerGroup.getMaxSize lg = Some m ->
        let mx := LayerGroup.xOf m in
        let my := LayerGroup.yOf m in
        LayerGroup.calculateFitScale lg
          = Return (Some (MathNS.min (MathNS.div (inject_Z w) mx)
                                     (MathNS.div (inject_Z h) my)))
        /\ (forall l, In l (LayerGroup.layers lg) ->
              LayerGroup.isViewLayer l = true ->
              (LayerGroup.xOf (LayerGroup.getImageWorldSize l) <= mx)%Q
              /\ (LayerGroup.yOf (LayerGroup.getImageWorldSize l) <= my)%Q)
        /\ (mx = 0%Q
            \/ exists l, In l (LayerGroup.layers lg)
                 /\ LayerGroup.isViewLayer l = true
                 /\ LayerGroup.xOf (LayerGroup.getImageWorldSize l) = mx)
        /\ (my = 0%Q
            \/ exists l, In l (LayerGroup.layers lg)
                 /\ LayerGroup.isViewLayer l = true
                 /\ LayerGroup.yOf (LayerGroup.getImageWorldSize l) = my)
        /\ ((0 < mx)%Q -> (0 < my)%Q ->
            exists s,
              LayerGroup.calculateFitScale lg = Return (Some (MathNS.Finite s))
              /\ (s * mx <= inject_Z w)%Q /\ (s * my <= inject_Z h)%Q
              /\ forall s', (s' * mx <= inject_Z w)%Q ->
                            (s' * my <= inject_Z h)%Q -> (s' <= s)%Q)).
Proof.
  intros w h.
  assert (Hguard : (w =? 0) && (h =? 0) = true <-> w = 0 /\ h = 0).
  { rewrite andb_true_iff, !Z.eqb_eq. reflexivity. }
  assert (Hpositive : forall l, In l (LayerGroup.layers lg) ->
            LayerGroup.isViewLayer l = true ->
            (0 < LayerGroup.xOf (LayerGroup.getImageWorldSize l))%Q
            \/ (0 < LayerGroup.yOf (LayerGroup.getImageWorldSize l))%Q ->
            exists m, LayerGroup.getMaxSize lg = Some m)
    by exact (getMaxSize_positive lg).
  unfold LayerGroup.calculateFitScale. fold w h.
  destruct ((w =? 0) && (h =? 0)) eqn:G.
  - assert (Hz : w = 0 /\ h = 0) by (apply Hguard; reflexivity).
    split; [split; [intros _; exact Hz | intros _; eexists; reflexivity]|].
    split; [intros Hnz; contradiction|].
    split; [intros Hnz; contradiction|].
    split; [exact Hpositive|].
    split; intros Hnz; contradiction.
  - assert (Hnz : ~ (w = 0 /\ h = 0))
      by (intros Hz; apply Hguard in Hz; discriminate).
    split; [|split; [|split; [|split; [exact Hpositive|split]]]].
    + split; [|intros Hz; contradiction].
      intros [e He]. destruct (LayerGroup.getMaxSize lg); discriminate.
    + intros _ Hno. unfold LayerGroup.getMaxSize.
      rewrite (maxSizeLoop_no_view _ _ Hno). reflexivity.
    + intros _. rewrite <- getMaxSize_none_iff.
      destruct (LayerGroup.getMaxSize lg);
        split; intros H; (discriminate H || reflexivity).
    + intros _. destruct (LayerGroup.getMaxSize lg) as [m|];
        [right; exists m; reflexivity | left; reflexivity].
    + intros _ m Hm. rewrite Hm.
      pose proof (maxSizeLoop_attained (LayerGroup.layers lg)
                    (LayerGroup.mkXY 0 0)) as [Ax Ay].
      rewrite <- (getMaxSize_some _ _ Hm) in Ax, Ay. simpl in Ax, Ay.
      split; [reflexivity|]. split; [|split; [|split]].
      * intros l Hl Hv. rewrite (getMaxSize_some _ _ Hm).
        apply maxSizeLoop_bounds; assumption.
      * exact Ax.
      * exact Ay.
      * intros Hmx Hmy.
        destruct (min_div_largest (inject_Z w) (inject_Z h) _ _ Hmx Hmy)
          as (s & Hs & Hfit).
        exists s. rewrite Hs. split; [reflexivity | exact Hfit].
Qed.


(** ** Propagating a position change *)

Section PositionChange.
Import MathNS LayerGroup.
Context {L : Type} {api : LayerAPI L}.

Lemma updateBaseOffset_calls position layer i base b layer' base' calls :
  updateBaseOffset position layer i base = (b, layer', base', calls) ->
  (calls = [] /\ b = false)
  \/ exists so po, calls = [CallSetBaseOffset i so po b].
Proof.
  unfold updateBaseOffset.
  destruct (isViewLayer layer); [|intros H; inversion H; subst; auto].
  destruct base as [[b0 b1]|]; [|intros H; inversion H; subst; auto].
  destruct (vcCanSetPosition layer position); [|intros H; inversion H; subst; auto].
  destruct (vcGetOrigin layer position) as [origin|];
    [|intros H; inversion H; subst; auto].
  destruct (setBaseOffset layer _ _) as [r l'].
  intros H; inversion H; subst. right. eauto.
Qed.

Lemma updatePosition_calls event layer i b layer' calls :
  updatePosition event layer i = (b, layer', calls) ->
  (calls = [] /\ b = false) \/ calls = [CallSetCurrentPosition i b].
Proof.
  unfold updatePosition.
  destruct (negb _); [|intros H; inversion H; subst; auto].
  destruct (setCurrentPosition layer _ _) as [r l'].
  intros H; inversion H; subst. auto.
Qed.

Lemma forceRedraw_calls hasSetPos hasSetOffset layer i layer' calls :
  forceRedraw hasSetPos hasSetOffset layer i = (layer', calls) ->
  calls = if negb hasSetPos && hasSetOffset then [CallDraw i] else [].
Proof.
  unfold forceRedraw. destruct (negb hasSetPos && hasSetOffset);
    intros H; inversion H; subst; reflexivity.
Qed.

(** The calls made for one layer obey the rule for that layer. *)
Lemma redrawRule_here i hasSetOffset hasSetPos calls1 calls2 calls3 :
  ((calls1 = [] /\ hasSetOffset = false)
   \/ exists so po, calls1 = [CallSetBaseOffset i so po hasSetOffset]) ->
  ((calls2 = [] /\ hasSetPos = false)
   \/ calls2 = [CallSetCurrentPosition i hasSetPos]) ->
  calls3 = (if negb hasSetPos && hasSetOffset then [CallDraw i] else []) ->
  redrawRule (calls1 ++ calls2 ++ calls3) i.
Proof.
  unfold redrawRule, refusedPosition, acceptedPosition, appliedBaseOffset,
    forcedRedraw.
  intros [[-> ->] | (so & po & ->)] [[-> ->] | ->] ->;
    try destruct hasSetOffset; try destruct hasSetPos; simpl;
    (split; [intros Hr (so' & po' & Ha) | intros Hd; split;
                                          [intros Hacc | idtac]]);
    repeat match goal with
           | H : _ \/ _ |- _ => destruct H
           | H : False |- _ => destruct H
           | H : _ = _ |- _ => discriminate H
           end;
    eauto.
Qed.

(** Calls on layer [i] followed by calls on later layers: what is said
    about layer [k] is decided by one of the two parts. *)
Section SplitCalls.
Variables (here rest : list Call) (i : nat).
Hypothesis Hhere : forall c, In c here -> layerOf c = Some i.
Hypothesis Hrest :
  forall c, In c rest -> exists k, layerOf c = Some k /\ (S i <= k)%nat.

Lemma in_split_layer (c : Call) (k : nat) :
  layerOf c = Some k ->
  In c (here ++ rest) <-> In c (if decide (k = i) then here else rest).
Proof.
  intros Hc. rewrite in_app_iff. destruct (decide (k = i)) as [->|Hne].
  - split; [|auto]. intros [H|H]; [exact H|].
    destruct (Hrest c H) as (k & Hk & Hle). rewrite Hc in Hk.
    injection Hk as <-. lia.
  - split; [|auto]. intros [H|H]; [|exact H].
    apply Hhere in H. congruence.
Qed.

Lemma redrawRule_split (k : nat) :
  redrawRule (if decide (k = i) then here else rest) k ->
  redrawRule (here ++ rest) k.
Proof.
  unfold redrawRule, refusedPosition, acceptedPosition, appliedBaseOffset,
    forcedRedraw.
  intros [Hforce Honly]. split.
  - intros Hr (so & po & Ha).
    apply (proj2 (in_split_layer (CallDraw k) k eq_refl)).
    apply (proj1 (in_split_layer (CallSetCurrentPosition k false) k eq_refl))
      in Hr.
    apply (proj1 (in_split_layer (CallSetBaseOffset k so po true) k eq_refl))
      in Ha.
    apply Hforce; eauto.
  - intros Hd. apply (proj1 (in_split_layer (CallDraw k) k eq_refl)) in Hd.
    destruct (Honly Hd) as [Hna (so & po & Ha)]. split.
    + intros Hacc. apply Hna.
      apply (proj1 (in_split_layer (CallSetCurrentPosition k true) k eq_refl))
        in Hacc.
      exact Hacc.
    + exists so, po.
      apply (proj2 (in_split_layer (CallSetBaseOffset k so po true) k eq_refl)).
      exact Ha.
Qed.
End SplitCalls.

Lemma positionLoop_layers (event : PositionEvent) (ls : list L) :
  forall i base ls' calls,
    positionLoop event ls i base = (ls', calls) ->
    forall c, In c calls -> exists k, layerOf c = Some k /\ (i <= k)%nat.
Proof.
  induction ls as [|layer rest IH]; intros i base ls' calls Hloop c Hc.
  - simpl in Hloop. inversion Hloop; subst. destruct Hc.
  - simpl in Hloop.
    destruct (updateBaseOffset _ layer i base)
      as [[[hasSetOffset l1] base'] calls1] eqn:E1.
    destruct (updatePosition event l1 i) as [[hasSetPos l2] calls2] eqn:E2.
    destruct (forceRedraw hasSetPos hasSetOffset l2 i) as [l3 calls3] eqn:E3.
    destruct (positionLoop event rest (S i) base') as [rest' calls'] eqn:E4.
    inversion Hloop; subst; clear Hloop.
    apply updateBaseOffset_calls in E1. apply updatePosition_calls in E2.
    apply forceRedraw_calls in E3.
    rewrite !in_app_iff in Hc. destruct Hc as [Hc|[Hc|[Hc|Hc]]].
    + destruct E1 as [[-> _] | (so & po & ->)]; [destruct Hc|].
      destruct Hc as [<-|[]]. exists i. split; [reflexivity | lia].
    + destruct E2 as [[-> _] | ->]; [destruct Hc|].
      destruct Hc as [<-|[]]. exists i. split; [reflexivity | lia].
    + subst calls3. destruct (negb hasSetPos && hasSetOffset); [|destruct Hc].
      destruct Hc as [<-|[]]. exists i. split; [reflexivity | lia].
    + destruct (IH _ _ _ _ E4 c Hc) as (k & Hk & Hle).
      exists k. split; [exact Hk | lia].
Qed.

(** Every layer obeys the rule in the calls of the loop. *)
Lemma positionLoop_redrawRule (event : PositionEvent) (ls : list L) :
  forall i base ls' calls,
    positionLoop event ls i base = (ls', calls) ->
    forall k, redrawRule calls k.
Proof.
  induction ls as [|layer rest IH]; intros i base ls' calls Hloop k.
  - simpl in Hloop. inversion Hloop; subst.
    unfold redrawRule, forcedRedraw, refusedPosition. simpl. tauto.
  - simpl in Hloop.
    destruct (updateBaseOffset _ layer i base)
      as [[[hasSetOffset l1] base'] calls1] eqn:E1.
    destruct (updatePosition event l1 i) as [[hasSetPos l2] calls2] eqn:E2.
    destruct (forceRedraw hasSetPos hasSetOffset l2 i) as [l3 calls3] eqn:E3.
    destruct (positionLoop event rest (S i) base') as [rest' calls'] eqn:E4.
    inversion Hloop; subst; clear Hloop.
    pose proof (positionLoop_layers _ _ _ _ _ _ E4) as Hrest.
    specialize (IH _ _ _ _ E4).
    apply updateBaseOffset_calls in E1. apply updatePosition_calls in E2.
    apply forceRedraw_calls in E3.
    pose proof (redrawRule_here i _ _ _ _ _ E1 E2 E3) as Hhere.
    replace (calls1 ++ calls2 ++ calls3 ++ calls')
      with ((calls1 ++ calls2 ++ calls3) ++ calls')
      by (rewrite <- !app_assoc; reflexivity).
    apply (redrawRule_split _ _ i).
    + intros c Hc. rewrite !in_app_iff in Hc.
      destruct Hc as [Hc|[Hc|Hc]].
      * destruct E1 as [[-> _] | (so & po & ->)]; [destruct Hc|].
        destruct Hc as [<-|[]]. reflexivity.
      * destruct E2 as [[-> _] | ->]; [destruct Hc|].
        destruct Hc as [<-|[]]. reflexivity.
      * subst calls3. destruct (negb hasSetPos && hasSetOffset); [|destruct Hc].
        destruct Hc as [<-|[]]. reflexivity.
    + exact Hrest.
    + destruct (decide (k = i)) as [->|_]; [exact Hhere | apply IH].
Qed.

Lemma pauseListeners_housekeeping (ls : list L) :
  forall j ls' calls,
    pauseListeners ls j = (ls', calls) ->
    forall c, In c calls -> isHousekeeping c.
Proof.
  induction ls as [|layer rest IH]; intros j ls' calls Hp c Hc.
  - simpl in Hp. inversion Hp; subst. destruct Hc.
  - simpl in Hp. destruct (pauseListeners rest (S j)) as [rest' calls'] eqn:E.
    destruct (isViewLayer layer); inversion Hp; subst; clear Hp.
    + destruct Hc as [<-|[<-|Hc]]; [exact I | exact I | eapply IH; eauto].
    + eapply IH; eauto.
Qed.

Lemma restartListeners_housekeeping (ls : list L) :
  forall j ls' calls,
    restartListeners ls j = (ls', calls) ->
    forall c, In c calls -> isHousekeeping c.
Proof.
  induction ls as [|layer rest IH]; intros j ls' calls Hp c Hc.
  - simpl in Hp. inversion Hp; subst. destruct Hc.
  - simpl in Hp. destruct (restartListeners rest (S j)) as [rest' calls'] eqn:E.
    destruct (isViewLayer layer); inversion Hp; subst; clear Hp.
    + destruct Hc as [<-|[<-|Hc]]; [exact I | exact I | eapply IH; eauto].
    + eapply IH; eauto.
Qed.

Lemma pauseListeners_length (ls : list L) :
  forall j, length (fst (pauseListeners ls j)) = length ls.
Proof.
  induction ls as [|layer rest IH]; intros j; [reflexivity|].
  simpl. specialize (IH (S j)).
  destruct (pauseListeners rest (S j)) as [rest' calls'].
  destruct (isViewLayer layer); simpl in *; lia.
Qed.

(** Housekeeping calls around the loop change nothing about the rule. *)
Lemma redrawRule_housekeeping (before calls after : list Call) (k : nat) :
  (forall c, In c before -> isHousekeeping c) ->
  (forall c, In c after -> isHousekeeping c) ->
  redrawRule calls k -> redrawRule (before ++ calls ++ after) k.
Proof.
  intros Hb Ha.
  assert (Hin : forall c, ~ isHousekeeping c ->
            In c (before ++ calls ++ after) <-> In c calls).
  { intros c Hc. rewrite !in_app_iff. split; [|auto].
    intros [H|[H|H]]; [apply Hb in H; contradiction | exact H
                      | apply Ha in H; contradiction]. }
  unfold redrawRule, refusedPosition, acceptedPosition, appliedBaseOffset,
    forcedRedraw.
  intros [Hforce Honly]. split.
  - intros Hr (so & po & Hap).
    apply (proj2 (Hin (CallDraw k) (fun F => F))).
    apply (proj1 (Hin (CallSetCurrentPosition k false) (fun F => F))) in Hr.
    apply (proj1 (Hin (CallSetBaseOffset k so po true) (fun F => F))) in Hap.
    apply Hforce; eauto.
  - intros Hd. apply (proj1 (Hin (CallDraw k) (fun F => F))) in Hd.
    destruct (Honly Hd) as [Hna (so & po & Hap)]. split.
    + intros Hacc. apply Hna.
      apply (proj1 (Hin (CallSetCurrentPosition k true) (fun F => F))) in Hacc.
      exact Hacc.
    + exists so, po.
      apply (proj2 (Hin (CallSetBaseOffset k so po true) (fun F => F))).
      exact Hap.
Qed.
End PositionChange.

(** *** The pass, layer by layer *)

Section PositionAnswers.
Import MathNS LayerGroup.
Context {L : Type} {api : LayerAPI L}.

Lemma pauseListeners_paused (ls : list L) :
  forall j, fst (pauseListeners ls j) = paused <$> ls.
Proof.
  induction ls as [|layer rest IH]; intros j; [reflexivity|].
  simpl. specialize (IH (S j)).
  destruct (pauseListeners rest (S j)) as [rest' calls']. simpl in IH.
  unfold paused at 1.
  destruct (isViewLayer layer); simpl; rewrite IH; reflexivity.
Qed.

Lemma restartListeners_restarted (ls : list L) :
  forall k, fst (restartListeners ls k) = restarted <$> ls.
Proof.
  induction ls as [|layer rest IH]; intros k; [reflexivity|].
  simpl. specialize (IH (S k)).
  destruct (restartListeners rest (S k)) as [rest' calls']. simpl in IH.
  unfold restarted at 1.
  destruct (isViewLayer layer); simpl; rewrite IH; reflexivity.
Qed.

Lemma updateBaseOffset_answer position layer i base b layer' base' calls :
  updateBaseOffset position layer i base = (b, layer', base', calls) ->
  answeredOffset position base layer b layer'
  /\ base' = baseViewLayerOrigins position base [layer]
  /\ calls = match baseOffsets position base layer with
             | Some (so, po) => [CallSetBaseOffset i so po b]
             | None => []
             end.
Proof.
  unfold updateBaseOffset, answeredOffset, baseOffsets. simpl.
  destruct (isViewLayer layer);
    [|destruct base as [[b0 b1]|]; intros H; inversion H; subst; auto].
  destruct base as [[b0 b1]|]; [|intros H; inversion H; subst; auto].
  destruct (vcCanSetPosition layer position);
    [|intros H; inversion H; subst; auto].
  destruct (vcGetOrigin layer position) as [origin|];
    [|intros H; inversion H; subst; auto].
  destruct (setBaseOffset layer _ _) as [r l'].
  intros H; inversion H; subst. auto.
Qed.

Lemma updatePosition_answer event layer i b layer' calls :
  updatePosition event layer i = (b, layer', calls) ->
  answeredPosition event layer b layer'
  /\ calls = if String.eqb (getId layer) (srclayerid event)
             then [] else [CallSetCurrentPosition i b].
Proof.
  unfold updatePosition, answeredPosition.
  destruct (String.eqb (getId layer) (srclayerid event)); simpl;
    [intros H; inversion H; subst; auto|].
  destruct (setCurrentPosition layer _ _) as [r l'].
  intros H; inversion H; subst. auto.
Qed.

(** The four things said about layer [k] depend on the calls made on that
    layer, other than those on its listeners. *)
Lemma answers_ext (calls calls' : list Call) (k : nat) :
  (forall c, ~ isHousekeeping c -> layerOf c = Some k ->
     In c calls <-> In c calls') ->
  (appliedBaseOffset calls k <-> appliedBaseOffset calls' k)
  /\ (acceptedPosition calls k <-> acceptedPosition calls' k)
  /\ (refusedPosition calls k <-> refusedPosition calls' k)
  /\ (forcedRedraw calls k <-> forcedRedraw calls' k).
Proof.
  intros Hin.
  unfold appliedBaseOffset, acceptedPosition, refusedPosition, forcedRedraw.
  split; [|split; [|split]].
  - split; intros (so & po & H); exists so, po;
      apply (Hin (CallSetBaseOffset k so po true) (fun F => F) eq_refl);
      exact H.
  - apply (Hin (CallSetCurrentPosition k true) (fun F => F) eq_refl).
  - apply (Hin (CallSetCurrentPosition k false) (fun F => F) eq_refl).
  - apply (Hin (CallDraw k) (fun F => F) eq_refl).
Qed.

(** The calls made on one layer, read against its answers. *)
Lemma answers_here (i : nat) (offsets : option (Vector3D * Vector3D))
    (hasSetOffset hasSetPos isSource : bool) :
  (offsets = None -> hasSetOffset = false) ->
  (isSource = true -> hasSetPos = false) ->
  let calls :=
    match offsets with
    | Some (so, po) => [CallSetBaseOffset i so po hasSetOffset]
    | None => []
    end
    ++ (if isSource then [] else [CallSetCurrentPosition i hasSetPos])
    ++ (if negb hasSetPos && hasSetOffset then [CallDraw i] else []) in
  (forall c, In c calls -> layerOf c = Some i)
  /\ (appliedBaseOffset calls i <-> hasSetOffset = true)
  /\ (acceptedPosition calls i <-> hasSetPos = true)
  /\ (refusedPosition calls i <-> hasSetPos = false /\ isSource = false)
  /\ (forcedRedraw calls i <-> hasSetPos = false /\ hasSetOffset = true).
Proof.
  intros Hnone Hsource calls. subst calls.
  unfold appliedBaseOffset, acceptedPosition, refusedPosition, forcedRedraw.
  destruct offsets as [[so po]|];
    [|rewrite (Hnone eq_refl)];
    (destruct isSource; [rewrite (Hsource eq_refl)|]);
    try destruct hasSetOffset; try destruct hasSetPos; simpl;
    (split; [intros c Hc|]);
    repeat match goal with
           | H : _ \/ _ |- _ => destruct H
           | H : False |- _ => destruct H
           | H : _ = ?x |- _ => is_var x; subst x
           | |- _ /\ _ => split
           | |- _ <-> _ => split; intros
           | H : _ /\ _ |- _ => destruct H
           | H : exists _, _ |- _ => destruct H
           | H : _ = _ |- _ => discriminate H
           end;
    eauto.
Qed.

(** What the loop does to the layer at place [k] of its list, told from
    the answers of that layer. *)
Lemma positionLoop_answers (event : PositionEvent) (ls : list L) :
  forall i base ls' calls,
    positionLoop event ls i base = (ls', calls) ->
    length ls' = length ls
    /\ forall k layer, ls !! k = Some layer ->
         exists hasSetOffset layer1 hasSetPos layer2,
           answeredOffset (eventPosition event)
             (baseViewLayerOrigins (eventPosition event) base (take k ls))
             layer hasSetOffset layer1
           /\ answeredPosition event layer1 hasSetPos layer2
           /\ ls' !! k = Some (if negb hasSetPos && hasSetOffset
                                then draw layer2 else layer2)
           /\ (appliedBaseOffset calls (i + k) <-> hasSetOffset = true)
           /\ (acceptedPosition calls (i + k) <-> hasSetPos = true)
           /\ (refusedPosition calls (i + k)
               <-> hasSetPos = false
                   /\ String.eqb (getId layer1) (srclayerid event) = false)
           /\ (forcedRedraw calls (i + k)
               <-> hasSetPos = false /\ hasSetOffset = true).
Proof.
  induction ls as [|layer rest IH]; intros i base ls' calls Hloop.
  - simpl in Hloop. inversion Hloop; subst.
    split; [reflexivity | intros k layer Hk; discriminate Hk].
  - simpl in Hloop.
    destruct (updateBaseOffset _ layer i base)
      as [[[hasSetOffset l1] base'] calls1] eqn:E1.
    destruct (updatePosition event l1 i) as [[hasSetPos l2] calls2] eqn:E2.
    destruct (forceRedraw hasSetPos hasSetOffset l2 i) as [l3 calls3] eqn:E3.
    destruct (positionLoop event rest (S i) base') as [rest' calls'] eqn:E4.
    inversion Hloop; subst; clear Hloop.
    pose proof (positionLoop_layers _ _ _ _ _ _ E4) as Hrest.
    destruct (IH _ _ _ _ E4) as [Hlen IHk]. clear IH.
    apply updateBaseOffset_answer in E1 as (A1 & Hbase & C1).
    apply updatePosition_answer in E2 as (A2 & C2).
    pose proof (forceRedraw_calls _ _ _ _ _ _ E3) as C3.
    assert (Hl3 : l3 = if negb hasSetPos && hasSetOffset then draw l2 else l2).
    { unfold forceRedraw in E3.
      destruct (negb hasSetPos && hasSetOffset); inversion E3; reflexivity. }
    assert (Hnone : baseOffsets (eventPosition event) base layer = None ->
                    hasSetOffset = false).
    { intros Hn. unfold answeredOffset in A1. rewrite Hn in A1. apply A1. }
    assert (Hsource : String.eqb (getId l1) (srclayerid event) = true ->
                      hasSetPos = false).
    { intros Hs. unfold answeredPosition in A2. rewrite Hs in A2. apply A2. }
    destruct (answers_here i _ _ _ _ Hnone Hsource)
      as (Hhere & Happlied & Haccepted & Hrefused & Hforced).
    rewrite <- C1, <- C2, <- C3 in Hhere, Happlied, Haccepted, Hrefused,
      Hforced.
    replace (calls1 ++ calls2 ++ calls3 ++ calls')
      with ((calls1 ++ calls2 ++ calls3) ++ calls')
      by (rewrite <- !app_assoc; reflexivity).
    split; [simpl; rewrite Hlen; reflexivity|].
    intros [|k] layer0 Hk.
    + simpl in Hk. injection Hk as <-.
      exists hasSetOffset, l1, hasSetPos, l2.
      split; [exact A1|]. split; [exact A2|].
      split; [simpl; rewrite Hl3; reflexivity|].
      rewrite Nat.add_0_r.
      destruct (answers_ext ((calls1 ++ calls2 ++ calls3) ++ calls')
                  (calls1 ++ calls2 ++ calls3) i)
        as (T1 & T2 & T3 & T4).
      { intros c _ Hc.
        rewrite (in_split_layer _ _ i Hhere Hrest c i Hc).
        destruct (decide (i = i)); [reflexivity | congruence]. }
      rewrite T1, T2, T3, T4. auto.
    + simpl in Hk. destruct (IHk k layer0 Hk)
        as (b1 & m1 & b2 & m2 & B1 & B2 & Hlook & R1 & R2 & R3 & R4).
      exists b1, m1, b2, m2.
      split; [simpl in Hbase; simpl; rewrite <- Hbase; exact B1|].
      split; [exact B2|]. split; [exact Hlook|].
      replace (i + S k)%nat with (S i + k)%nat by lia.
      destruct (answers_ext ((calls1 ++ calls2 ++ calls3) ++ calls')
                  calls' (S i + k))
        as (T1 & T2 & T3 & T4).
      { intros c _ Hc.
        rewrite (in_split_layer _ _ i Hhere Hrest c (S i + k)%nat Hc).
        destruct (decide (S i + k = i)%nat); [lia | reflexivity]. }
      rewrite T1, T2, T3, T4. auto.
Qed.
End PositionAnswers.

(** C4: one pass of [updateLayersToPositionChange] over a group that has a
    layer (or shows no crosshair) returns without an error whatever the
    layers answer.  Every layer of the group comes out of it as follows.
    Its listeners are paused; it is asked to take the base offset to the
    first view layer that has an origin at the position, if it is a later
    view layer that can be set to the position; unless the event came from
    it, it is asked to take the position; when its [setCurrentPosition]
    did not return true and its [setBaseOffset] returned true it is drawn,
    otherwise it is not; its listeners are restarted.  The calls made say
    the same: a layer whose [setCurrentPosition] returned false after its
    [setBaseOffset] returned true is drawn, and a layer that is drawn
    neither accepted the position nor went without a base offset. *)
Theorem updateLayersToPositionChange_redraw
    {L : Type} {api : LayerGroup.LayerAPI L}
    (lg : LayerGroup.t L) (event : LayerGroup.PositionEvent) :
  LayerGroup.showCrosshair lg = false \/ LayerGroup.layers lg <> [] ->
  exists lg' calls,
    LayerGroup.updateLayersToPositionChange lg event = Return (lg', calls)
    /\ (forall i,
         (LayerGroup.refusedPosition calls i ->
          LayerGroup.appliedBaseOffset calls i ->
          LayerGroup.forcedRedraw calls i)
         /\ (LayerGroup.forcedRedraw calls i ->
             ~ LayerGroup.acceptedPosition calls i
             /\ LayerGroup.appliedBaseOffset calls i))
    /\ length (LayerGroup.layers lg') = length (LayerGroup.layers lg)
    /\ forall i layer, LayerGroup.layers lg !! i = Some layer ->
         exists hasSetOffset layer1 hasSetPos layer2,
           LayerGroup.answeredOffset (LayerGroup.eventPosition event)
             (LayerGroup.baseViewLayerOrigins (LayerGroup.eventPosition event)
                None (LayerGroup.paused <$> take i (LayerGroup.layers lg)))
             (LayerGroup.paused layer) hasSetOffset layer1
           /\ LayerGroup.answeredPosition event layer1 hasSetPos layer2
           /\ LayerGroup.layers lg' !! i
              = Some (LayerGroup.restarted
                        (if negb hasSetPos && hasSetOffset
                         then LayerGroup.draw layer2 else layer2))
           /\ (LayerGroup.appliedBaseOffset calls i <-> hasSetOffset = true)
           /\ (LayerGroup.acceptedPosition calls i <-> hasSetPos = true)
           /\ (LayerGroup.refusedPosition calls i
               <-> hasSetPos = false
                   /\ LayerGroup.getId layer1 <> LayerGroup.srclayerid event)
           /\ (LayerGroup.forcedRedraw calls i
               <-> hasSetPos = false /\ hasSetOffset = true).
Proof.
  intros Hok. unfold LayerGroup.updateLayersToPositionChange.
  pose proof (pauseListeners_paused (LayerGroup.layers lg) 0) as Hpaused.
  destruct (LayerGroup.pauseListeners (LayerGroup.layers lg) 0)
    as [ls paused] eqn:Epause.
  simpl in Hpaused. subst ls.
  assert (Hcross : exists crosshair,
            (if LayerGroup.showCrosshair lg
             then LayerGroup.showCrosshairDiv
                    (LayerGroup.paused <$> LayerGroup.layers lg)
                    (LayerGroup.eventPosition event)
             else Return []) = Return crosshair
            /\ forall c, In c crosshair -> LayerGroup.isHousekeeping c).
  { destruct (LayerGroup.showCrosshair lg) eqn:Eshow.
    - destruct Hok as [Hoff|Hne]; [discriminate|].
      unfold LayerGroup.showCrosshairDiv.
      destruct (LayerGroup.layers lg) as [|l0 ls0]; [congruence|].
      simpl. eexists. split; [reflexivity|].
      intros c [<-|[]]. exact I.
    - exists []. split; [reflexivity | intros c []]. }
  destruct Hcross as (crosshair & -> & Hcrosshair). cbn [bind].
  destruct (LayerGroup.positionLoop event
              (LayerGroup.paused <$> LayerGroup.layers lg) 0 None)
    as [ls1 updated] eqn:Eloop.
  pose proof (restartListeners_restarted ls1 0) as Hrestarted.
  destruct (LayerGroup.restartListeners ls1 0) as [ls2 restarted] eqn:Erestart.
  simpl in Hrestarted. subst ls2.
  destruct (positionLoop_answers _ _ _ _ _ _ Eloop) as [Hlen Hanswers].
  assert (Hbefore : forall c, In c (paused ++ crosshair) ->
                      LayerGroup.isHousekeeping c).
  { intros c Hc. apply in_app_iff in Hc as [Hc|Hc].
    - exact (pauseListeners_housekeeping _ _ _ _ Epause c Hc).
    - exact (Hcrosshair c Hc). }
  pose proof (restartListeners_housekeeping _ _ _ _ Erestart) as Hafter.
  replace (paused ++ crosshair ++ updated ++ restarted)
    with ((paused ++ crosshair) ++ updated ++ restarted)
    by (rewrite <- app_assoc; reflexivity).
  eexists _, _. split; [reflexivity|]. split; [|split].
  - intros i. apply redrawRule_housekeeping.
    + exact Hbefore.
    + exact Hafter.
    + exact (positionLoop_redrawRule _ _ _ _ _ _ Eloop i).
  - simpl. rewrite length_fmap, Hlen, length_fmap. reflexivity.
  - intros i layer Hi.
    destruct (Hanswers i (LayerGroup.paused layer))
      as (b1 & m1 & b2 & m2 & B1 & B2 & Hlook & R1 & R2 & R3 & R4).
    { rewrite list_lookup_fmap, Hi. reflexivity. }
    exists b1, m1, b2, m2.
    rewrite <- fmap_take in B1.
    split; [exact B1|]. split; [exact B2|].
    split; [simpl; rewrite list_lookup_fmap, Hlook; reflexivity|].
    destruct (answers_ext ((paused ++ crosshair) ++ updated ++ restarted)
                updated i) as (T1 & T2 & T3 & T4).
    { intros c Hc _. rewrite in_app_iff, (in_app_iff updated).
      split; [|auto].
      intros [H|[H|H]]; [apply Hbefore in H; contradiction | exact H
                        | apply Hafter in H; contradiction]. }
    rewrite T1, T2, T3, T4. simpl in R1, R2, R3, R4.
    rewrite R1, R2, R3, R4, String.eqb_neq. tauto.
Qed.


(** ** Growing a geometry *)

Section Append.
Import MathNS.

Lemma incrementThird_spec (values : list Z) (n : Z) :
  values !! 2%nat = Some n ->
  Geometry.incrementThird values = Return (<[2%nat:=n + 1]> values).
Proof. intros H. unfold Geometry.incrementThird. rewrite H. reflexivity. Qed.

(** [appendOrigin] adds one slice, puts the origin at its place and marks
    the spacing stale; nothing else changes. *)
Lemma appendOrigin_spec (g : Geometry.t) (origin : Point3D) (index : nat) (n : Z) :
  Geometry.size g !! 2%nat = Some n ->
  exists g', Geometry.appendOrigin g origin index = Return g'
    /\ Geometry.size g' = <[2%nat:=n + 1]> (Geometry.size g)
    /\ Geometry.origins g'
       = take index (Geometry.origins g) ++ origin :: drop index (Geometry.origins g)
    /\ length (Geometry.origins g') = S (length (Geometry.origins g))
    /\ Geometry.newOrigins g' = true
    /\ Geometry.spacing g' = Geometry.spacing g
    /\ Geometry.orientation g' = Geometry.orientation g.
Proof.
  intros H. unfold Geometry.appendOrigin.
  rewrite (incrementThird_spec _ _ H). simpl. eexists. split; [reflexivity|].
  simpl. repeat split.
  unfold Geometry.splice. rewrite length_app. simpl.
  rewrite length_take, length_drop. lia.
Qed.

(** [appendFrame] changes the size exactly as [appendOrigin] does: it is
    the slice count that grows. *)
Lemma appendFrame_spec (g : Geometry.t) (n : Z) :
  Geometry.size g !! 2%nat = Some n ->
  exists g', Geometry.appendFrame g = Return g'
    /\ Geometry.size g' = <[2%nat:=n + 1]> (Geometry.size g)
    /\ Geometry.origins g' = Geometry.origins g
    /\ Geometry.newOrigins g' = Geometry.newOrigins g.
Proof.
  intros H. unfold Geometry.appendFrame.
  rewrite (incrementThird_spec _ _ H). simpl. eexists. split; [reflexivity|].
  simpl. repeat split.
Qed.

Example stack_built :
  Geometry.appendOrigin Examples.slice (mkPoint3D 0 0 (-2)) 1
  = Return Examples.stack.
Proof. reflexivity. Qed.

Example stackUp_built :
  Geometry.appendOrigin Examples.slice (mkPoint3D 0 0 1) 1
  = Return Examples.stackUp.
Proof. reflexivity. Qed.

Example stackDown_built :
  Geometry.appendOrigin Examples.slice (mkPoint3D 0 0 (-1)) 1
  = Return Examples.stackDown.
Proof. reflexivity. Qed.
End Append.

(** C6, where the code departs from it: on the volume of size (4,4,2,1)
    [appendFrame] leaves four columns, four rows and one frame and makes the
    two slices three. *)
Theorem appendFrame_increments_slices :
  Geometry.size Examples.volume = [4; 4; 2; 1]
  /\ exists g', Geometry.appendFrame Examples.volume = Return g'
       /\ Geometry.size g' = [4; 4; 3; 1].
Proof. split; [reflexivity|]. eexists. split; reflexivity. Qed.

(** ** Equality of geometries *)

Section Equality.
Import MathNS.
Context {ops : MathOps}.
Local Open Scope Q_scope.

Lemma point3DEquals_iff (p q : Point3D) :
  point3DEquals p q = true <-> Geometry.pointEq p q.
Proof.
  unfold point3DEquals, Geometry.pointEq.
  rewrite !andb_true_iff, !Qeq_bool_iff. tauto.
Qed.

Lemma tupleEquals_iff (a b : list Q) :
  Geometry.tupleEquals a b = true <-> Geometry.tupleEq a b.
Proof.
  unfold Geometry.tupleEq. revert b.
  induction a as [|x a IH]; intros [|y b]; simpl.
  - split; [constructor | reflexivity].
  - split; [discriminate | intros H; inversion H].
  - split; [discriminate | intros H; inversion H].
  - rewrite andb_true_iff, Qeq_bool_iff, IH. split.
    + intros [Hx Hab]. constructor; assumption.
    + intros H. inversion H; subst. split; assumption.
Qed.

Lemma equals_true_iff (g rhs : Geometry.t) (o1 o2 : Point3D) :
  Geometry.getOrigin g = Some o1 ->
  Geometry.getOrigin rhs = Some o2 ->
  Geometry.equals g (Some rhs) = Return true
  <-> Geometry.pointEq o1 o2
      /\ Geometry.size g = Geometry.size rhs
      /\ exists s1 g1 s2 g2,
           Geometry.getSpacing g = Return (s1, g1)
           /\ Geometry.getSpacing rhs = Return (s2, g2)
           /\ Geometry.tupleEq s1 s2.
Proof.
  intros Ho1 Ho2. unfold Geometry.equals. rewrite Ho1, Ho2.
  cbn [Geometry.defined bind]. rewrite <- point3DEquals_iff.
  unfold Geometry.getSize.
  destruct (point3DEquals o1 o2); cbn [negb].
  2:{ split; [discriminate | intros [H _]; discriminate]. }
  destruct (bool_decide (Geometry.size g = Geometry.size rhs)) eqn:Esize;
    cbn [negb].
  2:{ apply bool_decide_eq_false in Esize.
      split; [discriminate | intros (_ & H & _); contradiction]. }
  apply bool_decide_eq_true in Esize.
  destruct (Geometry.getSpacing g) as [[s1 g1]|e1]; cbn [bind].
  2:{ split; [discriminate | intros (_ & _ & ? & ? & ? & ? & H & _); discriminate]. }
  destruct (Geometry.getSpacing rhs) as [[s2 g2]|e2]; cbn [bind].
  2:{ split; [discriminate
             | intros (_ & _ & ? & ? & ? & ? & _ & H & _); discriminate]. }
  split.
  - intros H. injection H as H. apply tupleEquals_iff in H.
    split; [reflexivity|]. split; [exact Esize|]. eauto 10.
  - intros (_ & _ & s1' & g1' & s2' & g2' & H1 & H2 & Heq).
    injection H1 as <- <-. injection H2 as <- <-.
    apply tupleEquals_iff in Heq. rewrite Heq. reflexivity.
Qed.

(** With no appended origin pending, the orientation plays no part. *)
Lemma equals_orientation (g rhs : Geometry.t) (m1 m2 : Matrix33) :
  Geometry.newOrigins g = false ->
  Geometry.newOrigins rhs = false ->
  Geometry.equals (Geometry.withOrientation g m1)
                  (Some (Geometry.withOrientation rhs m2))
  = Geometry.equals g (Some rhs).
Proof.
  intros H1 H2. unfold Geometry.equals, Geometry.getSpacing,
    Geometry.withOrientation, Geometry.getOrigin, Geometry.getSize.
  simpl. rewrite H1, H2. reflexivity.
Qed.
End Equality.

(** C7, as amended: [equals(rhs)] returns true if and only if the origins
    that [getOrigin] returns, the last listed origin of each geometry, their
    sizes and their spacings (as [getSpacing] returns them) are pairwise
    equal.  The orientation is not compared: with no appended origin
    pending, two geometries that differ only in orientation are equal
    whenever they are equal under a common one. *)
Theorem equals_spec {ops : MathNS.MathOps}
    (g rhs : Geometry.t) (o1 o2 : MathNS.Point3D) :
  last (Geometry.origins g) = Some o1 ->
  last (Geometry.origins rhs) = Some o2 ->
  (Geometry.equals g (Some rhs) = Return true
   <-> Geometry.pointEq o1 o2
       /\ Geometry.size g = Geometry.size rhs
       /\ exists s1 g1 s2 g2,
            Geometry.getSpacing g = Return (s1, g1)
            /\ Geometry.getSpacing rhs = Return (s2, g2)
            /\ Geometry.tupleEq s1 s2)
  /\ (Geometry.newOrigins g = false -> Geometry.newOrigins rhs = false ->
      forall m1 m2,
        Geometry.equals (Geometry.withOrientation g m1)
                        (Some (Geometry.withOrientation rhs m2))
        = Geometry.equals g (Some rhs)).
Proof.
  intros Ho1 Ho2. split.
  - apply equals_true_iff; assumption.
  - intros H1 H2 m1 m2. apply equals_orientation; assumption.
Qed.

Lemma equals_spec_witness :
  (Geometry.equals (ops := MathNS.refOps) Examples.stackFresh
     (Some (Geometry.withOrientation Examples.stackFresh Examples.sagittal))
   = Return true
   <-> Geometry.pointEq (MathNS.mkPoint3D 0 0 (-2)) (MathNS.mkPoint3D 0 0 (-2))
       /\ Geometry.size Examples.stackFresh
          = Geometry.size
              (Geometry.withOrientation Examples.stackFresh Examples.sagittal)
       /\ exists s1 g1 s2 g2,
            Geometry.getSpacing (ops := MathNS.refOps) Examples.stackFresh
              = Return (s1, g1)
            /\ Geometry.getSpacing (ops := MathNS.refOps)
                 (Geometry.withOrientation Examples.stackFresh Examples.sagittal)
               = Return (s2, g2)
            /\ Geometry.tupleEq s1 s2)
  /\ (Geometry.newOrigins Examples.stackFresh = false ->
      Geometry.newOrigins
        (Geometry.withOrientation Examples.stackFresh Examples.sagittal) = false ->
      forall m1 m2,
        Geometry.equals (ops := MathNS.refOps)
          (Geometry.withOrientation Examples.stackFresh m1)
          (Some (Geometry.withOrientation
                   (Geometry.withOrientation Examples.stackFresh Examples.sagittal)
                   m2))
        = Geometry.equals (ops := MathNS.refOps) Examples.stackFresh
            (Some (Geometry.withOrientation Examples.stackFresh
                     Examples.sagittal))).
Proof.
  apply (equals_spec (ops := MathNS.refOps) Examples.stackFresh
           (Geometry.withOrientation Examples.stackFresh Examples.sagittal));
    reflexivity.
Defined.

Example equals_across_orientations :
  Geometry.equals (ops := MathNS.refOps) Examples.stackFresh
    (Some (Geometry.withOrientation Examples.stackFresh Examples.sagittal))
  = Return true.
Proof. reflexivity. Qed.

(** The claim of C7 as it stands fails: two stacks that share their first
    origin, their size and their spacing, and differ in their last origin,
    are not equal. *)
Lemma equals_first_origin_counterexample :
  head (Geometry.origins Examples.stackUp)
    = head (Geometry.origins Examples.stackDown)
  /\ Geometry.size Examples.stackUp = Geometry.size Examples.stackDown
  /\ (exists s g1 g2,
        Geometry.getSpacing (ops := MathNS.refOps) Examples.stackUp
          = Return (s, g1)
        /\ Geometry.getSpacing (ops := MathNS.refOps) Examples.stackDown
           = Return (s, g2))
  /\ Geometry.equals (ops := MathNS.refOps) Examples.stackUp
       (Some Examples.stackDown) = Return false.
Proof.
  split; [reflexivity|]. split; [reflexivity|]. split; [|reflexivity].
  exists [1; 1; 1]%Q. eexists _, _. split; reflexivity.
Qed.





(** ** The theorems at work on the example data *)

Lemma worldToIndex_indexToWorld_witness :
  exists p x',
    Geometry.indexToWorld (ops := MathNS.refOps) Examples.stack
      (map inject_Z [1; 2; 1]) = Return (p, Examples.stackFresh)
    /\ Geometry.worldToIndex (ops := MathNS.refOps) Examples.stackFresh p
       = Return (x', Examples.stackFresh)
    /\ Geometry.tupleEq x' (map inject_Z [1; 2; 1])
    /\ exists n k s2 pz,
         Geometry.size Examples.stack !! 2%nat = Some n
         /\ [1; 2; 1] !! 2%nat = Some k
         /\ [1; 1; 2]%Q !! 2%nat = Some s2 /\ p !! 2%nat = Some pz
         /\ (pz == MathNS.getZ (MathNS.mkPoint3D 0 0 (-2))
                   + inject_Z ((n - 1) - k) * s2)%Q.
Proof.
  apply (worldToIndex_indexToWorld (ops := MathNS.refOps)
           Examples.stack Examples.stackFresh (MathNS.mkPoint3D 0 0 (-2))
           [1; 1; 2]%Q [1; 2; 1]).
  - repeat constructor; lia.
  - simpl. lia.
  - reflexivity.
  - reflexivity.
  - simpl. lia.
  - repeat constructor.
Defined.

Example indexToWorld_stack :
  exists p x',
    Geometry.indexToWorld (ops := MathNS.refOps) Examples.stack [1; 2; 1]%Q
      = Return (p, Examples.stackFresh)
    /\ Geometry.tupleEq p [1; 2; -2]%Q
    /\ Geometry.worldToIndex (ops := MathNS.refOps) Examples.stackFresh p
       = Return (x', Examples.stackFresh)
    /\ Geometry.tupleEq x' [1; 2; 1]%Q.
Proof.
  eexists _, _. split; [reflexivity|]. split; [repeat constructor|].
  split; [reflexivity | repeat constructor].
Qed.


Example getSliceGeometrySpacing_stack :
  Geometry.getSliceGeometrySpacing (ops := MathNS.refOps) Examples.stack
  = Return (Some 2%Q, []).
Proof. reflexivity. Qed.

Example getSliceGeometrySpacing_degenerate :
  Geometry.getSliceGeometrySpacing (ops := MathNS.refOps) Examples.degenerate
  = Throw ZeroSliceSpacing.
Proof. reflexivity. Qed.

Lemma getViewOrientation_spec_witness :
  LayerGroup.getViewOrientation (ops := MathNS.refOps) Examples.sagittal
    (Some MathNS.getIdentityMat33)
  = Return (MathNS.getAbs
              (MathNS.multiply (MathOps := MathNS.refOps)
                 (MathNS.mkMatrix33 0 1 0 0 0 1 1 0 0)
                 MathNS.getIdentityMat33)).
Proof.
  apply (proj1 (proj2 (getViewOrientation_spec (ops := MathNS.refOps)
                         Examples.sagittal))).
  reflexivity.
Defined.

Lemma calculateFitScale_spec_witness :
  exists s,
    LayerGroup.calculateFitScale Examples.twoViews
      = Return (Some (MathNS.Finite s))
    /\ (s * 100 <= inject_Z 200)%Q /\ (s * 100 <= inject_Z 100)%Q
    /\ forall s', (s' * 100 <= inject_Z 200)%Q ->
                  (s' * 100 <= inject_Z 100)%Q -> (s' <= s)%Q.
Proof.
  destruct (calculateFitScale_spec Examples.twoViews)
    as (_ & _ & _ & Hdefined & _ & Hfit).
  destruct (Hdefined _ (or_introl eq_refl) eq_refl (or_introl eq_refl))
    as [m Hm].
  destruct (Hfit ltac:(simpl; lia) m Hm) as (_ & _ & _ & _ & Hlargest).
  vm_compute in Hm. injection Hm as <-.
  apply Hlargest; reflexivity.
Defined.

Example calculateFitScale_twoViews :
  exists s, LayerGroup.calculateFitScale Examples.twoViews
            = Return (Some (MathNS.Finite s)) /\ (s == 1)%Q.
Proof. eexists. split; reflexivity. Qed.

(** The claim of C8 as it stands fails: a container of width 0 and height
    100 has no area, and [calculateFitScale] returns the scale 0 for it. *)
Lemma calculateFitScale_flat_counterexample :
  (LayerGroup.offsetWidth Examples.flatContainer
   * LayerGroup.offsetHeight Examples.flatContainer = 0)%Z
  /\ exists s, LayerGroup.calculateFitScale Examples.flatContainer
               = Return (Some (MathNS.Finite s)) /\ (s == 0)%Q.
Proof. split; [reflexivity|]. eexists. split; reflexivity. Qed.

Lemma updateLayersToPositionChange_redraw_witness :
  exists lg' calls,
    LayerGroup.updateLayersToPositionChange Examples.twoViews Examples.moved
      = Return (lg', calls)
    /\ Examples.stubDraws <$> LayerGroup.layers lg' !! 1%nat = Some 1%nat
    /\ LayerGroup.forcedRedraw calls 1
    /\ Examples.stubDraws <$> LayerGroup.layers lg' !! 0%nat = Some 0%nat
    /\ ~ LayerGroup.forcedRedraw calls 0.
Proof.
  destruct (updateLayersToPositionChange_redraw Examples.twoViews
              Examples.moved (or_introl eq_refl))
    as (lg' & calls & Hrun & _ & _ & Hlayers).
  exists lg', calls. split; [exact Hrun|].
  destruct (Hlayers 1%nat _ eq_refl)
    as (b1 & m1 & b2 & m2 & B1 & B2 & Hlook & _ & _ & _ & Hdrawn).
  destruct (Hlayers 0%nat _ eq_refl)
    as (c1 & n1 & c2 & n2 & D1 & D2 & Hlook0 & _ & _ & _ & Hdrawn0).
  vm_compute in B1. injection B1 as <- <-.
  vm_compute in B2. injection B2 as <- <-.
  vm_compute in D1. destruct D1 as [-> ->].
  vm_compute in D2. destruct D2 as [-> ->].
  rewrite Hlook, Hlook0, Hdrawn, Hdrawn0.
  split; [reflexivity|]. split; [auto|]. split; [reflexivity|].
  intros [_ H]. discriminate H.
Defined.

(** The second view cannot follow: it gets its base offset, refuses the
    position and is drawn; the first view, where the event came from, is
    left alone. *)
Example updateLayersToPositionChange_twoViews :
  exists lg',
    LayerGroup.updateLayersToPositionChange Examples.twoViews Examples.moved
    = Return (lg',
        [LayerGroup.CallRemoveEventListener 0 LayerGroup.UpdateLayersToPositionChange;
         LayerGroup.CallRemoveEventListener 0 LayerGroup.FireEvent;
         LayerGroup.CallRemoveEventListener 1 LayerGroup.UpdateLayersToPositionChange;
         LayerGroup.CallRemoveEventListener 1 LayerGroup.FireEvent;
         LayerGroup.CallSetBaseOffset 1
           (MathNS.minus (MathNS.mkPoint3D 0 0 0) (MathNS.mkPoint3D 0 0 0))
           (MathNS.minus (MathNS.mkPoint3D 0 0 0) (MathNS.mkPoint3D 0 0 0)) true;
         LayerGroup.CallSetCurrentPosition 1 false;
         LayerGroup.CallDraw 1;
         LayerGroup.CallAddEventListener 0 LayerGroup.UpdateLayersToPositionChange;
         LayerGroup.CallAddEventListener 0 LayerGroup.FireEvent;
         LayerGroup.CallAddEventListener 1 LayerGroup.UpdateLayersToPositionChange;
         LayerGroup.CallAddEventListener 1 LayerGroup.FireEvent])
    /\ map Examples.stubDraws (LayerGroup.layers lg') = [0; 1]%nat.
Proof. eexists. split; reflexivity. Qed.

(** * Further properties *)

(** ** World to index and back *)

Section NearestVoxel.
Import MathNS.
Context {ops : MathOps}.
Local Open Scope Q_scope.

Lemma round_error (q : Q) :
  - (1 # 2) < inject_Z (round q) - q /\ inject_Z (round q) - q <= 1 # 2.
Proof.
  unfold round.
  pose proof (Qfloor_le (q + (1 # 2))) as Hle.
  pose proof (Qlt_floor (q + (1 # 2))) as Hlt.
  rewrite inject_Z_plus in Hlt. change (inject_Z 1) with 1 in Hlt.
  split; lra.
Qed.

(** The centre of the voxel that a coordinate rounds to is at most half a
    spacing away. *)
Lemma voxel_centre_near (o s w k : Q) :
  0 < s ->
  k == inject_Z (round ((w - o) / s)) ->
  Qabs (o + k * s - w) <= (1 # 2) * s.
Proof.
  intros Hs Hk. destruct (round_error ((w - o) / s)) as [Hlo Hhi].
  set (r := inject_Z (round ((w - o) / s))) in *.
  assert (E : o + k * s - w == (r - (w - o) / s) * s)
    by (rewrite Hk; field; lra).
  rewrite E. apply Qabs_Qle_condition. split.
  - assert (E' : - ((1 # 2) * s) == (- (1 # 2)) * s) by ring.
    rewrite E'. apply Qmult_le_compat_r; lra.
  - apply Qmult_le_compat_r; lra.
Qed.
End NearestVoxel.

(** X1: [worldToIndex] picks the nearest voxel.  For a geometry with the
    three spatial dimensions, an origin and positive spacing, and a point
    with at least three coordinates, [indexToWorld(worldToIndex(p))] is
    within half a spacing of [p] on each of the first three axes, and the
    further coordinates of [p] come back unchanged. *)
Theorem indexToWorld_worldToIndex_nearest {ops : MathNS.MathOps}
    (g g' : Geometry.t) (o : MathNS.Point3D) (s p : list Q) :
  (3 <= length (Geometry.size g))%nat ->
  (3 <= length p)%nat ->
  Geometry.getOrigin g = Some o ->
  Geometry.getSpacing g = Return (s, g') ->
  (3 <= length s)%nat ->
  Forall (fun v => (0 < v)%Q) s ->
  exists x p',
    Geometry.worldToIndex g p = Return (x, g')
    /\ Geometry.indexToWorld g' x = Return (p', g')
    /\ drop 3 p' = drop 3 p
    /\ forall d pd sd, (d < 3)%nat -> p !! d = Some pd -> s !! d = Some sd ->
         exists pd', p' !! d = Some pd'
                     /\ (Qabs (pd' - pd) <= (1 # 2) * sd)%Q.
Proof.
  intros Hdim Hp Ho Hsp Hlen Hpos.
  destruct (getSpacing_state _ _ _ Hsp) as (Hor & Hsz & _ & _ & _).
  pose proof (getSpacing_again _ _ _ Hsp) as Hsp'.
  assert (Ho' : Geometry.getOrigin g' = Some o)
    by (unfold Geometry.getOrigin in *; rewrite Hor; exact Ho).
  destruct (Geometry.size g) as [|n0 [|n1 [|n2 nr]]] eqn:Hsize;
    simpl in Hdim; try lia.
  destruct p as [|p0 [|p1 [|p2 pr]]]; simpl in Hp; try lia.
  destruct s as [|s0 [|s1 [|s2 sr]]]; simpl in Hlen; try lia.
  apply Forall_cons in Hpos as [Hs0 Hpos].
  apply Forall_cons in Hpos as [Hs1 Hpos].
  apply Forall_cons in Hpos as [Hs2 _].
  eexists _, _. split; [|split; [|split]].
  - unfold Geometry.worldToIndex. rewrite Hsp. simpl. rewrite Ho. simpl.
    rewrite !div_finite by lra. simpl.
    unfold Geometry.flipK, Geometry.getSize. rewrite Hsz. simpl.
    reflexivity.
  - unfold Geometry.indexToWorld. rewrite Hsp'. simpl.
    unfold Geometry.flipK, Geometry.getSize. rewrite Hsz. simpl.
    rewrite Ho'. reflexivity.
  - reflexivity.
  - intros d pd sd Hd Hpd Hsd.
    destruct d as [|[|[|d]]]; [| | |lia]; simpl in Hpd, Hsd;
      injection Hpd as <-; injection Hsd as <-;
      (eexists; split; [reflexivity|]);
      apply voxel_centre_near; try assumption; try reflexivity.
    ring.
Qed.

(** ** Bounds of a geometry *)

Section Bounds.
Import MathNS MathExt.
Context {ops : MathOps} {pops : PointOps}.
Local Open Scope Q_scope.

(** Along one axis the centre of voxel [i] lies strictly between the two
    faces of the volume, which sit half a spacing outside the first and the
    last centre. *)
Lemma axis_inside (o s k : Q) (i n : Z) :
  0 < s -> (0 <= i < n)%Z -> k == inject_Z i ->
  o - s / 2 < o + k * s /\ o + k * s < o - s / 2 + inject_Z n * s.
Proof.
  intros Hs [Hlo Hhi] Hk.
  assert (H0 : 0 <= inject_Z i) by (change 0 with (inject_Z 0); rewrite <- Zle_Qle; lia).
  assert (H1 : inject_Z i + 1 <= inject_Z n).
  { change 1 with (inject_Z 1). rewrite <- inject_Z_plus, <- Zle_Qle. lia. }
  assert (Hhalf : s / 2 == (1 # 2) * s) by field.
  assert (P0 : 0 <= inject_Z i * s) by (apply Qmult_le_0_compat; lra).
  assert (P1 : (inject_Z i + 1) * s <= inject_Z n * s)
    by (apply Qmult_le_compat_r; lra).
  rewrite Hk, Hhalf. split; lra.
Qed.

Lemma otherDimensions_inBounds (xs ns : list Z) :
  Forall2 (fun x n => (0 <= x < n)%Z) xs ns ->
  Geometry.otherDimensions (map inject_Z xs) ns true = true.
Proof.
  induction 1 as [|x n xs ns [Hlo Hhi] _ IH]; [reflexivity|].
  simpl. replace (Qle_bool 0 (inject_Z x)) with true.
  - replace (Qlt_bool (inject_Z x) (inject_Z n)) with true; [exact IH|].
    symmetry. apply Qlt_bool_iff. rewrite <- Zlt_Qlt. exact Hhi.
  - symmetry. apply Qle_bool_iff. change 0 with (inject_Z 0).
    rewrite <- Zle_Qle. exact Hlo.
Qed.

Lemma otherDimensions_false (ps : list Q) (ns : list Z) :
  Geometry.otherDimensions ps ns false = false.
Proof.
  revert ns. induction ps as [|p ps IH]; intros [|n ns]; simpl; auto.
Qed.
End Bounds.

(** X2: a voxel of the volume is inside the volume.  For an in-bounds index
    of a geometry with the three spatial dimensions, an origin and positive
    spacing, [isInBounds(indexToWorld(x))] is true, whatever box test
    [Point3D.isInBounds] applies as long as it accepts the points strictly
    inside the box. *)
Theorem isInBounds_indexToWorld
    {ops : MathNS.MathOps} {pops : MathExt.PointOps}
    (g g' : Geometry.t) (o : MathNS.Point3D) (s : list Q) (x : list Z) :
  (forall p lo hi, MathExt.strictlyInside p lo hi ->
                   MathExt.point3DIsInBounds p lo hi = true) ->
  Geometry.inBounds (Geometry.size g) x ->
  (3 <= length (Geometry.size g))%nat ->
  Geometry.getOrigin g = Some o ->
  Geometry.getSpacing g = Return (s, g') ->
  (3 <= length s)%nat ->
  Forall (fun v => (0 < v)%Q) s ->
  exists p,
    Geometry.indexToWorld g (map inject_Z x) = Return (p, g')
    /\ Geometry.isInBounds g' p = MathExt.Done (true, g').
Proof.
  intros Hbox Hin Hdim Ho Hsp Hlen Hpos.
  destruct (getSpacing_state _ _ _ Hsp) as (Hor & Hsz & _ & _ & _).
  pose proof (getSpacing_again _ _ _ Hsp) as Hsp'.
  assert (Ho' : Geometry.getOrigin g' = Some o)
    by (unfold Geometry.getOrigin in *; rewrite Hor; exact Ho).
  unfold Geometry.inBounds in Hin.
  destruct (Geometry.size g) as [|n0 [|n1 [|n2 nr]]] eqn:Hsize;
    simpl in Hdim; try lia.
  destruct x as [|x0 [|x1 [|x2 xr]]];
    try (exfalso; apply Forall2_length in Hin; simpl in Hin; lia).
  destruct s as [|s0 [|s1 [|s2 sr]]]; simpl in Hlen; try lia.
  apply Forall_cons in Hpos as [Hs0 Hpos].
  apply Forall_cons in Hpos as [Hs1 Hpos].
  apply Forall_cons in Hpos as [Hs2 _].
  apply Forall2_cons in Hin as [Hx0 Hin].
  apply Forall2_cons in Hin as [Hx1 Hin].
  apply Forall2_cons in Hin as [Hx2 Hin].
  eexists. split.
  - unfold Geometry.indexToWorld. rewrite Hsp. simpl.
    unfold Geometry.flipK, Geometry.getSize. rewrite Hsz. simpl.
    rewrite Ho. reflexivity.
  - unfold Geometry.isInBounds, Geometry.getRealSize, Geometry.getSize.
    rewrite Hsp'. simpl. rewrite Ho'. simpl. rewrite Hsp'. simpl.
    rewrite Hsz. simpl.
    rewrite Hbox.
    + destruct (decide (3 < S (S (S (length (map inject_Z xr)))))%nat) as [Hlong|_];
        [|reflexivity].
      destruct (decide (S (S (S (length nr))) = S (S (S (length (map inject_Z xr))))))
        as [_|Hne].
      * rewrite !drop_0, (otherDimensions_inBounds _ _ Hin). reflexivity.
      * exfalso. apply Hne. rewrite length_map.
        apply Forall2_length in Hin. lia.
    + unfold MathExt.strictlyInside. simpl.
      destruct (axis_inside (MathNS.getX o) s0 (inject_Z x0) x0 n0 Hs0 Hx0)
        as [? ?]; [reflexivity|].
      destruct (axis_inside (MathNS.getY o) s1 (inject_Z x1) x1 n1 Hs1 Hx1)
        as [? ?]; [reflexivity|].
      destruct (axis_inside (MathNS.getZ o) s2
                  (inject_Z n2 - 1 - inject_Z x2) (n2 - 1 - x2) n2 Hs2)
        as [? ?]; [lia | rewrite !inject_Z_minus; reflexivity |].
      repeat split; assumption.
Qed.

Section BoundsErrors.
Import MathNS MathExt.
Local Open Scope Q_scope.

Lemma otherDimensions_true (ps : list Q) (ns : list Z) (b : bool) :
  length ns = length ps ->
  Geometry.otherDimensions ps ns b = true ->
  b = true /\ Forall2 (fun v n => 0 <= v /\ v < inject_Z n) ps ns.
Proof.
  revert ns b. induction ps as [|p ps IH]; intros [|n ns] b Hlen; simpl in *;
    try discriminate.
  - intros ->. split; [reflexivity | constructor].
  - intros H. injection Hlen as Hlen.
    destruct (IH ns _ Hlen H) as [Hb Hrest].
    apply andb_true_iff in Hb as [Hb Hlt].
    apply andb_true_iff in Hb as [Hb Hle].
    split; [exact Hb|]. constructor; [|exact Hrest].
    split; [apply Qle_bool_iff, Hle | apply Qlt_bool_iff, Hlt].
Qed.
End BoundsErrors.

(** X3: the dimensions checked by [isInBounds].  On a geometry with an
    origin and three spatial dimensions, [isInBounds] throws 'Incompatible
    point and size number of dimension' exactly when the point has more
    than three coordinates and not as many as the size; and when it answers
    true, the first three coordinates passed the box test between
    [origin - spacing / 2] and that plus [size * spacing], and every
    further coordinate [v] satisfies [0 <= v < size]. *)
Theorem isInBounds_dimensions
    {ops : MathNS.MathOps} {pops : MathExt.PointOps}
    (g g' : Geometry.t) (o : MathNS.Point3D)
    (s0 s1 s2 : Q) (sr : list Q) (n0 n1 n2 : Z) (nr : list Z)
    (x y z : Q) (pr : list Q) :
  Geometry.getOrigin g = Some o ->
  Geometry.size g = n0 :: n1 :: n2 :: nr ->
  Geometry.getSpacing g = Return (s0 :: s1 :: s2 :: sr, g') ->
  let lo := MathNS.mkPoint3D (MathNS.getX o - s0 / 2) (MathNS.getY o - s1 / 2)
                             (MathNS.getZ o - s2 / 2) in
  let hi := MathNS.mkPoint3D (MathNS.getX lo + inject_Z n0 * s0)
                             (MathNS.getY lo + inject_Z n1 * s1)
                             (MathNS.getZ lo + inject_Z n2 * s2) in
  (Geometry.isInBounds g (x :: y :: z :: pr)
     = MathExt.Failed MathExt.IncompatibleDimensions
   <-> pr <> [] /\ length nr <> length pr)
  /\ (forall b g'',
        Geometry.isInBounds g (x :: y :: z :: pr) = MathExt.Done (b, g'') ->
        g'' = g'
        /\ (b = true ->
            MathExt.point3DIsInBounds (MathNS.mkPoint3D x y z) lo hi = true
            /\ forall d v, pr !! d = Some v ->
                 exists n, nr !! d = Some n
                           /\ (0 <= v)%Q /\ (v < inject_Z n)%Q)).
Proof.
  intros Ho Hsize Hsp lo hi.
  destruct (getSpacing_state _ _ _ Hsp) as (Hor & Hsz & _ & _ & _).
  pose proof (getSpacing_again _ _ _ Hsp) as Hsp'.
  rewrite Hsize in Hsz.
  unfold Geometry.isInBounds, Geometry.getRealSize, Geometry.getSize.
  rewrite Hsp. simpl. rewrite Ho. simpl. rewrite Hsp'. simpl.
  rewrite Hsz. simpl. fold lo. fold hi.
  destruct (decide (3 < S (S (S (length pr))))%nat) as [Hlong|Hshort].
  - assert (Hpr : pr <> []) by (destruct pr; simpl in Hlong; [lia | discriminate]).
    destruct (decide (S (S (S (length nr))) = S (S (S (length pr)))))
      as [Heq|Hne].
    + split.
      * split; [discriminate | intros [_ H]; lia].
      * intros b g'' H. injection H as <- <-. split; [reflexivity|].
        rewrite !drop_0. intros Hb.
        destruct (otherDimensions_true pr nr _ ltac:(lia) Hb) as [Hbox Hrest].
        split; [exact Hbox|].
        intros d v Hv.
        destruct (Forall2_lookup_l _ _ _ _ _ Hrest Hv) as (n & Hn & Hvn).
        exists n. split; [exact Hn | exact Hvn].
    + split.
      * split; [intros _; split; [exact Hpr | lia] | reflexivity].
      * intros b g'' H. discriminate H.
  - assert (Hpr : pr = []) by (destruct pr; simpl in Hshort; [reflexivity | lia]).
    subst pr. split.
    + split; [discriminate | intros [H _]; contradiction].
    + intros b g'' H. injection H as <- <-. split; [reflexivity|].
      intros Hb. split; [exact Hb|].
      intros d v Hv. destruct d; discriminate Hv.
Qed.

(** ** Inserting origins *)

Section Insertion.
Import MathNS.
Local Open Scope Q_scope.

Lemma splice_lookup {A} (l : list A) (x : A) (i : nat) :
  (i <= length l)%nat -> Geometry.splice i x l !! i = Some x.
Proof.
  intros Hi. unfold Geometry.splice.
  apply list_lookup_middle. rewrite length_take. lia.
Qed.

Lemma splice_delete {A} (l : list A) (x : A) (i : nat) :
  (i <= length l)%nat -> delete i (Geometry.splice i x l) = l.
Proof.
  intros Hi. unfold Geometry.splice.
  replace i with (length (take i l)) at 1 by (rewrite length_take; lia).
  rewrite delete_middle. apply take_drop.
Qed.

Lemma getSliceIndex_range (g : Geometry.t) (point : Point3D) :
  Geometry.origins g <> [] ->
  exists i, Geometry.getSliceIndex g point = Return i
            /\ (i <= length (Geometry.origins g))%nat.
Proof.
  intros Hne.
  destruct (getSliceIndex_current g point Hne) as (c & oc & _ & Hoc & Hneg & Hpos).
  apply lookup_lt_Some in Hoc.
  destruct (Qlt_le_dec
              (dotProduct (Geometry.normal (Geometry.orientation g))
                          (minus point oc)) 0) as [H|H].
  - exists (c + 1)%nat. split; [apply Hneg, H | lia].
  - exists c. split; [apply Hpos, H | lia].
Qed.
End Insertion.

(** X4: the slice index of a point is a place to insert it.  On a geometry
    that has an origin and a slice count, [getSliceIndex(point)] returns an
    index no greater than the number of origins, and
    [appendOrigin(point, index)] with that index puts the point at that
    position, keeps the other origins in their order and adds one to the
    slice count. *)
Theorem appendOrigin_at_getSliceIndex
    (g : Geometry.t) (point : MathNS.Point3D) (n : Z) :
  Geometry.origins g <> [] ->
  Geometry.size g !! 2%nat = Some n ->
  exists i g',
    Geometry.getSliceIndex g point = Return i
    /\ (i <= length (Geometry.origins g))%nat
    /\ Geometry.appendOrigin g point i = Return g'
    /\ Geometry.origins g' !! i = Some point
    /\ delete i (Geometry.origins g') = Geometry.origins g
    /\ Geometry.size g' !! 2%nat = Some (n + 1).
Proof.
  intros Hne Hn.
  destruct (getSliceIndex_range g point Hne) as (i & Hi & Hle).
  destruct (appendOrigin_spec g point i n Hn)
    as (g' & Hg' & Hsize & Horigins & _).
  exists i, g'. split; [exact Hi|]. split; [exact Hle|]. split; [exact Hg'|].
  rewrite Horigins. fold (Geometry.splice i point (Geometry.origins g)).
  split; [apply splice_lookup, Hle|]. split; [apply splice_delete, Hle|].
  rewrite Hsize. apply list_lookup_insert_eq.
  apply lookup_lt_Some in Hn. exact Hn.
Qed.

(** X5: the slice count follows the origins.  If the slice count of a
    geometry is its number of origins, as after a construction with one
    slice, then any sequence of [appendOrigin] calls succeeds and leaves a
    geometry whose slice count is again its number of origins, with one
    origin more per call. *)
Theorem appendOrigins_keeps_count
    (g : Geometry.t) (appended : list (MathNS.Point3D * nat)) :
  Geometry.slicesMatchOrigins g ->
  exists g',
    Geometry.appendOrigins g appended = Return g'
    /\ Geometry.slicesMatchOrigins g'
    /\ length (Geometry.origins g')
       = (length (Geometry.origins g) + length appended)%nat
    /\ Geometry.spacing g' = Geometry.spacing g
    /\ Geometry.orientation g' = Geometry.orientation g
    /\ (appended <> [] -> Geometry.newOrigins g' = true).
Proof.
  revert g. induction appended as [|[origin index] rest IH]; intros g Hinv.
  - exists g. simpl. split; [reflexivity|]. split; [exact Hinv|].
    split; [lia|]. split; [reflexivity|]. split; [reflexivity | congruence].
  - unfold Geometry.slicesMatchOrigins in Hinv.
    destruct (appendOrigin_spec g origin index _ Hinv)
      as (g1 & Hg1 & Hsize & _ & Hlen & Hnew & Hsp & Hor).
    assert (Hinv1 : Geometry.slicesMatchOrigins g1).
    { unfold Geometry.slicesMatchOrigins. rewrite Hsize, Hlen.
      rewrite list_lookup_insert_eq by (apply lookup_lt_Some in Hinv; exact Hinv).
      f_equal. lia. }
    destruct (IH g1 Hinv1) as (g' & Hg' & Hinv' & Hlen' & Hsp' & Hor' & Hnew').
    exists g'. simpl. rewrite Hg1. simpl.
    split; [exact Hg'|]. split; [exact Hinv'|].
    split; [rewrite Hlen', Hlen; lia|].
    split; [congruence|]. split; [congruence|].
    intros _. destruct rest as [|a rest'].
    + simpl in Hg'. injection Hg' as <-. exact Hnew.
    + apply Hnew'. discriminate.
Qed.

(** ** Looking up an origin *)

Section OwnOrigin.
Import MathNS.
Local Open Scope Q_scope.

Lemma squares_zero (a b c : Q) :
  a * a + b * b + c * c <= 0 -> a == 0 /\ b == 0 /\ c == 0.
Proof.
  intros H.
  assert (Hsq : forall v : Q, 0 <= v * v).
  { intros v. destruct (Qlt_le_dec v 0) as [Hv|Hv].
    - assert (E : v * v == (- v) * (- v)) by ring.
      rewrite E. apply Qmult_le_0_compat; lra.
    - apply Qmult_le_0_compat; assumption. }
  pose proof (Hsq a) as Ha. pose proof (Hsq b) as Hb. pose proof (Hsq c) as Hc.
  assert (Ea : a * a == 0) by lra.
  assert (Eb : b * b == 0) by lra.
  assert (Ec : c * c == 0) by lra.
  apply Qmult_integral in Ea, Eb, Ec. tauto.
Qed.

Lemma squaredDistance_self (o : Point3D) : squaredDistance o o == 0.
Proof. unfold squaredDistance, dotProduct, minus. simpl. ring. Qed.

(** An origin at distance zero from the point is the point, and the dot
    product with the vector between them vanishes. *)
Lemma closest_to_self (o oc : Point3D) (normal : Vector3D) :
  squaredDistance o oc <= squaredDistance o o ->
  Geometry.pointEq oc o /\ dotProduct normal (minus o oc) == 0.
Proof.
  intros H. rewrite squaredDistance_self in H.
  unfold squaredDistance, dotProduct, minus in H. simpl in H.
  apply squares_zero in H. destruct H as (Hx & Hy & Hz).
  split.
  - unfold Geometry.pointEq. repeat split; lra.
  - unfold dotProduct, minus. simpl. rewrite Hx, Hy, Hz. ring.
Qed.
End OwnOrigin.

(** X6: a slice is found at its own origin.  When no two origins coincide,
    [getSliceIndex] of the origin listed at position [i] returns [i], in
    the current revision and in the first one alike. *)
Theorem getSliceIndex_of_origin
    (g : Geometry.t) (legacy : GeometryLegacy.t) :
  (Geometry.distinctOrigins (Geometry.origins g) ->
   forall i o, Geometry.origins g !! i = Some o ->
               Geometry.getSliceIndex g o = Return i)
  /\ (Geometry.distinctOrigins (GeometryLegacy.origins legacy) ->
      forall i o, GeometryLegacy.origins legacy !! i = Some o ->
                  GeometryLegacy.getSliceIndex legacy o = Return i).
Proof.
  split; intros Hdistinct i o Hi.
  - assert (Hne : Geometry.origins g <> [])
      by (intros E; rewrite E in Hi; discriminate Hi).
    destruct (getSliceIndex_current g o Hne)
      as (c & oc & (oc' & Hoc' & Hle & _) & Hoc & _ & Hpos).
    rewrite Hoc in Hoc'. injection Hoc' as <-.
    destruct (closest_to_self o oc (Geometry.normal (Geometry.orientation g))
                (Hle i o Hi)) as [Heq Hdot].
    rewrite <- (Hdistinct c i oc o Hoc Hi Heq).
    apply Hpos. rewrite Hdot. apply Qle_refl.
  - assert (Hne : GeometryLegacy.origins legacy <> [])
      by (intros E; rewrite E in Hi; discriminate Hi).
    destruct (getSliceIndex_legacy legacy o Hne)
      as (c & oc & (oc' & Hoc' & Hle & _) & Hoc & _ & Hnonpos).
    rewrite Hoc in Hoc'. injection Hoc' as <-.
    destruct (closest_to_self o oc
                (Geometry.normal (GeometryLegacy.orientation legacy))
                (Hle i o Hi)) as [Heq Hdot].
    rewrite <- (Hdistinct c i oc o Hoc Hi Heq).
    apply Hnonpos. rewrite Hdot. apply Qle_refl.
Qed.

(** ** The lazily refreshed spacing *)

(** X7: [getSpacing] refreshes once.  A successful call leaves the origins,
    the size, the orientation and the first two spacings as they were; with
    no appended origin pending it returns the stored spacing and changes
    nothing, and otherwise it stores what [getSliceGeometrySpacing] returns
    as third spacing; the next call returns the same spacing and changes
    nothing. *)
Theorem getSpacing_refreshes_once {ops : MathNS.MathOps}
    (g g' : Geometry.t) (s : list Q) :
  Geometry.getSpacing g = Return (s, g') ->
  Geometry.getSpacing g' = Return (s, g')
  /\ Geometry.origins g' = Geometry.origins g
  /\ Geometry.size g' = Geometry.size g
  /\ Geometry.orientation g' = Geometry.orientation g
  /\ s !! 0%nat = Geometry.spacing g !! 0%nat
  /\ s !! 1%nat = Geometry.spacing g !! 1%nat
  /\ (Geometry.newOrigins g = false -> s = Geometry.spacing g /\ g' = g)
  /\ (Geometry.newOrigins g = true ->
      exists v warnings,
        Geometry.getSliceGeometrySpacing g = Return (Some v, warnings)
        /\ s !! 2%nat = Some v).
Proof.
  intros H. pose proof (getSpacing_again _ _ _ H) as Hagain.
  destruct (getSpacing_state _ _ _ H) as (Hor & Hsz & Hori & _ & _).
  split; [exact Hagain|]. split; [exact Hor|]. split; [exact Hsz|].
  split; [exact Hori|].
  unfold Geometry.getSpacing in H.
  destruct (Geometry.newOrigins g) eqn:Hnew.
  - destruct (Geometry.getSliceGeometrySpacing g) as [[[v|] w]|e];
      simpl in H; try discriminate.
    unfold Geometry.arraySet in H.
    destruct (decide (2 < length (Geometry.spacing g))%nat) as [Hlong|Hshort].
    + simpl in H. injection H as <- <-.
      rewrite !list_lookup_insert_ne by lia.
      rewrite list_lookup_insert_eq by exact Hlong.
      repeat split; try discriminate. eauto.
    + destruct (decide (2%nat = length (Geometry.spacing g))) as [Htwo|];
        simpl in H; [|discriminate].
      injection H as <- <-.
      rewrite !lookup_app_l by lia.
      rewrite (list_lookup_middle (Geometry.spacing g) [] v 2 Htwo).
      repeat split; try discriminate. eauto.
  - injection H as <- <-. repeat split; discriminate.
Qed.

(** X8: two origins on one plane disable the geometry.  When an appended
    origin is pending, the orientation is invertible and two consecutive
    origins lie at distance zero along the slice direction, [getSpacing]
    throws 'Zero slice spacing', and so do [indexToWorld], [worldToIndex],
    [pointToWorld], [getRealSize] and [isInBounds] on every input, and
    [equals] on every geometry whose origin and size are the same. *)
Theorem conversions_throw_on_zero_gap
    {ops : MathNS.MathOps} {pops : MathExt.PointOps}
    (g : Geometry.t) (inverse : MathNS.Matrix33) :
  Geometry.newOrigins g = true ->
  MathNS.getInverse (Geometry.orientation g) = Some inverse ->
  Geometry.hasZeroGap (MathNS.asOneAndZeros inverse) (Geometry.origins g) ->
  Geometry.getSpacing g = Throw ZeroSliceSpacing
  /\ Geometry.getRealSize g = Throw ZeroSliceSpacing
  /\ (forall index, Geometry.indexToWorld g index = Throw ZeroSliceSpacing)
  /\ (forall point, Geometry.worldToIndex g point = Throw ZeroSliceSpacing)
  /\ (forall point, Geometry.pointToWorld g point = Throw ZeroSliceSpacing)
  /\ (forall point,
        Geometry.isInBounds g point
        = MathExt.Failed (MathExt.Raised ZeroSliceSpacing))
  /\ (forall rhs o1 o2,
        Geometry.getOrigin g = Some o1 -> Geometry.getOrigin rhs = Some o2 ->
        Geometry.pointEq o1 o2 -> Geometry.size g = Geometry.size rhs ->
        Geometry.equals g (Some rhs) = Throw ZeroSliceSpacing).
Proof.
  intros Hnew Hinv Hgap.
  assert (Hsp : Geometry.getSpacing g = Throw ZeroSliceSpacing).
  { unfold Geometry.getSpacing, Geometry.getSliceGeometrySpacing.
    rewrite Hnew.
    destruct (decide (length (Geometry.origins g) = 1%nat)) as [Hone|_].
    - exfalso. revert Hgap. apply hasZeroGap_short. lia.
    - rewrite Hinv. cbn [Geometry.defined bind].
      destruct (sliceSpacingLoop_spec (MathNS.asOneAndZeros inverse)
                  (Geometry.origins g) None []) as [[_ Hr]|[Hno _]];
        [rewrite Hr; reflexivity | contradiction]. }
  split; [exact Hsp|].
  split; [unfold Geometry.getRealSize; rewrite Hsp; reflexivity|].
  split; [intros index; unfold Geometry.indexToWorld; rewrite Hsp; reflexivity|].
  split; [intros point; unfold Geometry.worldToIndex; rewrite Hsp; reflexivity|].
  split; [intros point; unfold Geometry.pointToWorld; rewrite Hsp; reflexivity|].
  split; [intros point; unfold Geometry.isInBounds; rewrite Hsp; reflexivity|].
  intros rhs o1 o2 Ho1 Ho2 Heq Hsize. unfold Geometry.equals.
  rewrite Ho1, Ho2. cbn [Geometry.defined bind].
  apply point3DEquals_iff in Heq. rewrite Heq. cbn [negb].
  unfold Geometry.getSize. rewrite bool_decide_eq_true_2 by exact Hsize.
  cbn [negb]. rewrite Hsp. reflexivity.
Qed.

(** ** Offsets of the first revision *)

(** X9: in the first revision an index accepted by [Size.isInBounds] has
    its memory offset inside one frame, [0 <= offset < getFrameSize()], and
    two accepted indices with the same offset are the same index. *)
Theorem legacy_indexToOffset_within_frame
    (v : GeometryLegacy.volume) (a b : GeometryLegacy.Index3) :
  GeometryLegacy.sizeIsInBounds (GeometryLegacy.size v)
    (GeometryLegacy.getI a) (GeometryLegacy.getJ a) (GeometryLegacy.getK a)
    = true ->
  GeometryLegacy.sizeIsInBounds (GeometryLegacy.size v)
    (GeometryLegacy.getI b) (GeometryLegacy.getJ b) (GeometryLegacy.getK b)
    = true ->
  0 <= GeometryLegacy.indexToOffset v a
       < GeometryLegacy.getFrameSize (GeometryLegacy.size v)
  /\ (GeometryLegacy.indexToOffset v a = GeometryLegacy.indexToOffset v b ->
      a = b).
Proof.
  unfold GeometryLegacy.sizeIsInBounds, GeometryLegacy.indexToOffset,
    GeometryLegacy.getFrameSize, GeometryLegacy.getSliceSize.
  destruct a as [i j k], b as [i' j' k']. simpl.
  set (c := GeometryLegacy.getNumberOfColumns (GeometryLegacy.size v)).
  set (r := GeometryLegacy.getNumberOfRows (GeometryLegacy.size v)).
  set (n := GeometryLegacy.getNumberOfSlices (GeometryLegacy.size v)).
  intros Ha Hb.
  assert (Ha' : 0 <= i < c /\ 0 <= j < r /\ 0 <= k < n).
  { destruct (_ || _) eqn:E in Ha; [discriminate|].
    repeat (apply orb_false_iff in E as [E ?]).
    repeat match goal with H : (_ <? _) = false |- _ => apply Z.ltb_ge in H end.
    lia. }
  assert (Hb' : 0 <= i' < c /\ 0 <= j' < r /\ 0 <= k' < n).
  { destruct (_ || _) eqn:E in Hb; [discriminate|].
    repeat (apply orb_false_iff in E as [E ?]).
    repeat match goal with H : (_ <? _) = false |- _ => apply Z.ltb_ge in H end.
    lia. }
  clear Ha Hb. split.
  - assert (Hc : 0 <= c * r) by nia.
    assert (Hj : 0 <= j * c <= (r - 1) * c) by nia.
    assert (Hk : 0 <= k * (c * r) <= (n - 1) * (c * r)) by nia.
    nia.
  - intros Heq.
    assert (H1 : c * (j + k * r) + i = c * (j' + k' * r) + i') by lia.
    apply Z.div_mod_unique in H1 as [H1 ->]; [|lia|lia].
    assert (H2 : r * k + j = r * k' + j') by lia.
    apply Z.div_mod_unique in H2 as [-> ->]; [|lia|lia].
    reflexivity.
Qed.

(** ** World coordinates of the first revision *)


(** ** Offsets and indices, the other way round *)

Section OffsetDecomposition.
Import Offsets OffsetsFacts.
Variable size : list Z.
Hypothesis Hpositive : Forall (fun n => 0 < n) size.

Lemma getDimSize_positive (k : nat) : 0 < getDimSize size k.
Proof.
  induction k as [|k IH]; [rewrite getDimSize_0; lia|].
  destruct (size !! k) as [n|] eqn:Hk.
  - rewrite (getDimSize_S _ _ _ Hk).
    pose proof (Forall_lookup_1 _ _ _ _ Hpositive Hk). simpl in *. nia.
  - unfold getDimSize in *. apply lookup_ge_None in Hk.
    rewrite take_ge in * by lia. exact IH.
Qed.

(** The loop peels off one in-range component per dimension and leaves the
    offset of the components it has written. *)
Lemma offsetToIndex_loop_decomposes (i : nat) :
  forall off values,
    (i < length size)%nat ->
    length values = length size ->
    0 <= off < getDimSize size (S i) ->
    exists off' res,
      offsetToIndex_loop size i off values = Return (off', res)
      /\ length res = length size
      /\ 0 <= off' < getDimSize size 1
      /\ (forall j, (1 <= j <= i)%nat ->
            exists v n, res !! j = Some v /\ size !! j = Some n /\ 0 <= v < n)
      /\ (forall j, ~ (1 <= j <= i)%nat -> res !! j = values !! j)
      /\ off = partialOffset size (<[0%nat:=off']> res) (S i).
Proof.
  induction i as [|i IH]; intros off values Hi Hlen Hoff.
  - exists off, values. simpl offsetToIndex_loop.
    split; [reflexivity|]. split; [exact Hlen|]. split; [exact Hoff|].
    split; [intros j Hj; lia|]. split; [reflexivity|].
    rewrite partialOffset_S. simpl partialOffset.
    rewrite list_lookup_insert_eq by lia. rewrite getDimSize_0. simpl. lia.
  - destruct (lookup_lt_is_Some_2 size (S i) Hi) as [n Hn].
    pose proof (getDimSize_positive (S i)) as Hpos.
    rewrite (getDimSize_S _ _ _ Hn) in Hoff.
    cbn [offsetToIndex_loop].
    destruct (decide (getDimSize size (S i) = 0)) as [Hz|_]; [lia|].
    set (P := getDimSize size (S i)) in *.
    set (v := off / P).
    assert (Hv : 0 <= v < n).
    { unfold v. split; [apply Z.div_pos; lia|].
      apply Z.div_lt_upper_bound; lia. }
    assert (Hrem : 0 <= off - v * P < P).
    { unfold v. pose proof (Z.mod_pos_bound off P Hpos).
      rewrite Z.mod_eq in H by lia. lia. }
    destruct (IH (off - v * P) (<[S i:=v]> values))
      as (off' & res & Hres & Hl & Hoff' & Hin & Hout & Hsum);
      [lia | rewrite length_insert; exact Hlen | exact Hrem |].
    exists off', res. split; [exact Hres|]. split; [exact Hl|].
    split; [exact Hoff'|].
    assert (Hresv : res !! S i = Some v).
    { rewrite Hout by lia. apply list_lookup_insert_eq. lia. }
    split; [|split].
    + intros j Hj. destruct (decide (j = S i)) as [->|Hne].
      * exists v, n. auto.
      * apply Hin. lia.
    + intros j Hj. rewrite Hout by lia.
      apply list_lookup_insert_ne. lia.
    + rewrite (partialOffset_S _ _ (S i)), <- Hsum.
      rewrite list_lookup_insert_ne by lia. rewrite Hresv. simpl. fold P. lia.
Qed.
End OffsetDecomposition.

(** X11: every offset of the buffer is the offset of one index.  On a size
    whose counts are all positive, [offsetToIndex] maps an offset from 0 up
    to the product of the counts to an in-bounds index, and
    [indexToOffset] maps that index back to the offset. *)
Theorem indexToOffset_offsetToIndex (size : list Z) (offset : Z) :
  size <> [] ->
  Forall (fun n => 0 < n) size ->
  0 <= offset < Offsets.getDimSize size (length size) ->
  exists index,
    Offsets.offsetToIndex size offset = Return index
    /\ Offsets.inBounds size index
    /\ Offsets.indexToOffset size index = offset.
Proof.
  intros Hne Hpositive Hoff.
  assert (Hlen : (0 < length size)%nat)
    by (destruct size; simpl; [congruence | lia]).
  destruct (offsetToIndex_loop_decomposes size Hpositive (length size - 1)
              offset (replicate (length size) 0))
    as (off' & res & Hres & Hl & Hoff' & Hin & _ & Hsum);
    [lia | apply length_replicate
    | replace (S (length size - 1)) with (length size) by lia; exact Hoff |].
  unfold Offsets.offsetToIndex. rewrite Hres. simpl bind.
  destruct res as [|r res]; [simpl in Hl; lia|].
  eexists. split; [reflexivity|].
  set (index := <[0%nat:=off']> (r :: res)) in *.
  assert (Hlindex : length index = length size)
    by (unfold index; rewrite length_insert; exact Hl).
  split.
  - apply Forall2_same_length_lookup_2; [exact Hlindex|].
    intros j x n Hx Hn. destruct j as [|j].
    + unfold index in Hx. simpl in Hx. injection Hx as <-.
      rewrite (OffsetsFacts.getDimSize_S _ _ _ Hn),
        OffsetsFacts.getDimSize_0 in Hoff'. lia.
    + destruct (Hin (S j)) as (v & n' & Hv & Hn' & Hb).
      { apply lookup_lt_Some in Hn. lia. }
      unfold index in Hx. rewrite list_lookup_insert_ne in Hx by lia.
      congruence.
  - rewrite OffsetsFacts.indexToOffset_partial, Hlindex.
    replace (length size) with (S (length size - 1)) by lia.
    symmetry. exact Hsum.
Qed.

(** X12: the offset of an in-bounds index is inside the buffer,
    [0 <= indexToOffset(x) < ] the product of the counts of the size. *)
Theorem indexToOffset_within_buffer (size index : list Z) :
  Offsets.inBounds size index ->
  0 <= Offsets.indexToOffset size index
       < Offsets.getDimSize size (length size).
Proof.
  intros Hin.
  rewrite OffsetsFacts.indexToOffset_partial,
    (OffsetsFacts.inBounds_length size index Hin).
  apply (OffsetsFacts.partialOffset_bounds size index Hin). lia.
Qed.

(** ** Translation keys *)

Section Translations.
Import Strings.Ascii Strings.String MathExt I18n.





End Translations.


(** The keys of the units and three that are refused. *)
Example i18n_units :
  I18n.i18n (I18n.dotted I18n.unitPrefix (fst I18n.sampleNames))
    = MathExt.Done (Some (fst I18n.sampleNames))
  /\ I18n.i18n (I18n.dotted I18n.unitPrefix (snd I18n.sampleNames))
     = MathExt.Done None
  /\ I18n.i18n I18n.unitPrefix = MathExt.Failed MathExt.UnexpectedKeyLength
  /\ I18n.i18n (I18n.dotted (snd I18n.sampleNames) (fst I18n.sampleNames))
     = MathExt.Failed MathExt.UnexpectedKeyPrefix
  /\ I18n.i18n (I18n.dotted I18n.unitPrefix
                  (I18n.dotted I18n.unitPrefix (fst I18n.sampleNames)))
     = MathExt.Failed MathExt.UnexpectedKeyLength.
Proof. repeat split. Qed.

(** ** Zooming twice *)


(** ** The further properties at work on the example data *)

Lemma indexToWorld_worldToIndex_nearest_witness :
  exists x p',
    Geometry.worldToIndex (ops := MathNS.refOps) Examples.stack
      Samples.offCentre = Return (x, Examples.stackFresh)
    /\ Geometry.indexToWorld (ops := MathNS.refOps) Examples.stackFresh x
       = Return (p', Examples.stackFresh)
    /\ drop 3 p' = drop 3 Samples.offCentre
    /\ forall d pd sd, (d < 3)%nat -> Samples.offCentre !! d = Some pd ->
         [1; 1; 2]%Q !! d = Some sd ->
         exists pd', p' !! d = Some pd'
                     /\ (Qabs (pd' - pd) <= (1 # 2) * sd)%Q.
Proof.
  apply (indexToWorld_worldToIndex_nearest (ops := MathNS.refOps)
           Examples.stack Examples.stackFresh (MathNS.mkPoint3D 0 0 (-2))
           [1; 1; 2]%Q Samples.offCentre).
  - simpl. lia.
  - simpl. lia.
  - reflexivity.
  - reflexivity.
  - simpl. lia.
  - repeat constructor.
Defined.

(** The point (6/5, 12/5, -3/2) lies in voxel (1, 2, 1) of the stack, whose
    centre is (1, 2, -2). *)
Example worldToIndex_offCentre :
  exists x p',
    Geometry.worldToIndex (ops := MathNS.refOps) Examples.stack
      Samples.offCentre = Return (x, Examples.stackFresh)
    /\ Geometry.tupleEq x [1; 2; 1]%Q
    /\ Geometry.indexToWorld (ops := MathNS.refOps) Examples.stackFresh x
       = Return (p', Examples.stackFresh)
    /\ Geometry.tupleEq p' [1; 2; -2]%Q.
Proof.
  eexists _, _. split; [reflexivity|]. split; [repeat constructor|].
  split; [reflexivity | repeat constructor].
Qed.

(** The closed box of the reference implementation accepts what lies
    strictly inside. *)
Lemma refPointOps_accepts_inside (p lo hi : MathNS.Point3D) :
  MathExt.strictlyInside p lo hi ->
  MathExt.point3DIsInBounds (PointOps := MathExt.refPointOps) p lo hi = true.
Proof.
  unfold MathExt.strictlyInside. intros (? & ? & ? & ? & ? & ?). simpl.
  rewrite !andb_true_iff. repeat split; apply Qle_bool_iff; lra.
Qed.

Lemma isInBounds_indexToWorld_witness :
  exists p,
    Geometry.indexToWorld (ops := MathNS.refOps) Examples.stack
      (map inject_Z [1; 2; 1]) = Return (p, Examples.stackFresh)
    /\ Geometry.isInBounds (ops := MathNS.refOps)
         (pops := MathExt.refPointOps) Examples.stackFresh p
       = MathExt.Done (true, Examples.stackFresh).
Proof.
  apply (isInBounds_indexToWorld (ops := MathNS.refOps)
           (pops := MathExt.refPointOps) Examples.stack Examples.stackFresh
           (MathNS.mkPoint3D 0 0 (-2)) [1; 1; 2]%Q [1; 2; 1]).
  - exact refPointOps_accepts_inside.
  - repeat constructor; lia.
  - simpl. lia.
  - reflexivity.
  - reflexivity.
  - simpl. lia.
  - repeat constructor.
Defined.

Lemma isInBounds_dimensions_witness :
  Geometry.isInBounds (ops := MathNS.refOps) (pops := MathExt.refPointOps)
    Examples.volume [1; 1; 1; 0; 0]%Q
  = MathExt.Failed MathExt.IncompatibleDimensions
  /\ forall b g'',
       Geometry.isInBounds (ops := MathNS.refOps)
         (pops := MathExt.refPointOps) Examples.volume [1; 1; 1; 0]%Q
       = MathExt.Done (b, g'') -> g'' = Examples.volume.
Proof.
  split.
  - destruct (isInBounds_dimensions (ops := MathNS.refOps)
                (pops := MathExt.refPointOps) Examples.volume Examples.volume
                (MathNS.mkPoint3D 0 0 0) 1 1 1 [] 4 4 2 [1] 1 1 1 [0; 0]%Q
                eq_refl eq_refl eq_refl) as [[_ Hthrows] _].
    apply Hthrows. split; [discriminate | simpl; lia].
  - intros b g'' H.
    destruct (isInBounds_dimensions (ops := MathNS.refOps)
                (pops := MathExt.refPointOps) Examples.volume Examples.volume
                (MathNS.mkPoint3D 0 0 0) 1 1 1 [] 4 4 2 [1] 1 1 1 [0]%Q
                eq_refl eq_refl eq_refl) as [_ Hdone].
    exact (proj1 (Hdone b g'' H)).
Defined.

Example isInBounds_volume :
  Geometry.isInBounds (ops := MathNS.refOps) (pops := MathExt.refPointOps)
    Examples.volume [1; 1; 1; 0]%Q = MathExt.Done (true, Examples.volume)
  /\ Geometry.isInBounds (ops := MathNS.refOps) (pops := MathExt.refPointOps)
       Examples.volume [1; 1; 1; 1]%Q = MathExt.Done (false, Examples.volume)
  /\ Geometry.isInBounds (ops := MathNS.refOps) (pops := MathExt.refPointOps)
       Examples.volume [1; 1; 1]%Q = MathExt.Done (true, Examples.volume).
Proof. repeat split. Qed.

Lemma appendOrigin_at_getSliceIndex_witness :
  exists i g',
    Geometry.getSliceIndex Examples.slice (MathNS.mkPoint3D 0 0 (-2))
      = Return i
    /\ (i <= length (Geometry.origins Examples.slice))%nat
    /\ Geometry.appendOrigin Examples.slice (MathNS.mkPoint3D 0 0 (-2)) i
       = Return g'
    /\ Geometry.origins g' !! i = Some (MathNS.mkPoint3D 0 0 (-2))
    /\ delete i (Geometry.origins g') = Geometry.origins Examples.slice
    /\ Geometry.size g' !! 2%nat = Some (1 + 1).
Proof.
  apply (appendOrigin_at_getSliceIndex Examples.slice
           (MathNS.mkPoint3D 0 0 (-2)) 1).
  - simpl. discriminate.
  - reflexivity.
Defined.

(** Appending (0, 0, -2) to the single slice gives the stack. *)
Example appendOrigin_slice :
  Geometry.getSliceIndex Examples.slice (MathNS.mkPoint3D 0 0 (-2)) = Return 1%nat
  /\ Geometry.appendOrigin Examples.slice (MathNS.mkPoint3D 0 0 (-2)) 1
     = Return Examples.stack.
Proof. split; reflexivity. Qed.

Lemma appendOrigins_keeps_count_witness :
  exists g',
    Geometry.appendOrigins Examples.slice
      [(MathNS.mkPoint3D 0 0 (-2), 1%nat); (MathNS.mkPoint3D 0 0 (-1), 1%nat)]
    = Return g'
    /\ Geometry.slicesMatchOrigins g'
    /\ length (Geometry.origins g')
       = (length (Geometry.origins Examples.slice) + 2)%nat
    /\ Geometry.spacing g' = Geometry.spacing Examples.slice
    /\ Geometry.orientation g' = Geometry.orientation Examples.slice
    /\ ([(MathNS.mkPoint3D 0 0 (-2), 1%nat); (MathNS.mkPoint3D 0 0 (-1), 1%nat)]
        <> [] -> Geometry.newOrigins g' = true).
Proof.
  apply (appendOrigins_keeps_count Examples.slice
           [(MathNS.mkPoint3D 0 0 (-2), 1%nat);
            (MathNS.mkPoint3D 0 0 (-1), 1%nat)]).
  reflexivity.
Defined.

Lemma stack_distinctOrigins :
  Geometry.distinctOrigins (Geometry.origins Examples.stack).
Proof.
  intros [|[|i]] [|[|j]] oi oj Hi Hj Heq; simpl in Hi, Hj;
    try discriminate; try reflexivity;
    injection Hi as <-; injection Hj as <-;
    destruct Heq as (_ & _ & Hz); discriminate Hz.
Qed.

Lemma legacy_distinctOrigins :
  Geometry.distinctOrigins (GeometryLegacy.origins Examples.legacy).
Proof.
  intros [|i] [|j] oi oj Hi Hj Heq; simpl in Hi, Hj;
    try discriminate; reflexivity.
Qed.

Lemma getSliceIndex_of_origin_witness :
  Geometry.getSliceIndex Examples.stack (MathNS.mkPoint3D 0 0 (-2))
    = Return 1%nat
  /\ GeometryLegacy.getSliceIndex Examples.legacy (MathNS.mkPoint3D 0 0 0)
     = Return 0%nat.
Proof.
  destruct (getSliceIndex_of_origin Examples.stack Examples.legacy)
    as [Hcurrent Hfirst].
  split.
  - apply Hcurrent; [exact stack_distinctOrigins | reflexivity].
  - apply Hfirst; [exact legacy_distinctOrigins | reflexivity].
Defined.

Lemma getSpacing_refreshes_once_witness :
  Geometry.getSpacing (ops := MathNS.refOps) Examples.stackFresh
    = Return ([1; 1; 2]%Q, Examples.stackFresh)
  /\ Geometry.origins Examples.stackFresh = Geometry.origins Examples.stack
  /\ Geometry.size Examples.stackFresh = Geometry.size Examples.stack
  /\ Geometry.orientation Examples.stackFresh
     = Geometry.orientation Examples.stack
  /\ [1; 1; 2]%Q !! 0%nat = Geometry.spacing Examples.stack !! 0%nat
  /\ [1; 1; 2]%Q !! 1%nat = Geometry.spacing Examples.stack !! 1%nat
  /\ (Geometry.newOrigins Examples.stack = false ->
      [1; 1; 2]%Q = Geometry.spacing Examples.stack
      /\ Examples.stackFresh = Examples.stack)
  /\ (Geometry.newOrigins Examples.stack = true ->
      exists v warnings,
        Geometry.getSliceGeometrySpacing (ops := MathNS.refOps) Examples.stack
          = Return (Some v, warnings)
        /\ [1; 1; 2]%Q !! 2%nat = Some v).
Proof.
  apply (getSpacing_refreshes_once (ops := MathNS.refOps) Examples.stack
           Examples.stackFresh [1; 1; 2]%Q).
  reflexivity.
Defined.

Lemma conversions_throw_on_zero_gap_witness :
  Geometry.getSpacing (ops := MathNS.refOps) Examples.degenerate
    = Throw ZeroSliceSpacing
  /\ (forall index,
        Geometry.indexToWorld (ops := MathNS.refOps) Examples.degenerate index
        = Throw ZeroSliceSpacing)
  /\ (forall point,
        Geometry.isInBounds (ops := MathNS.refOps)
          (pops := MathExt.refPointOps) Examples.degenerate point
        = MathExt.Failed (MathExt.Raised ZeroSliceSpacing)).
Proof.
  destruct (conversions_throw_on_zero_gap (ops := MathNS.refOps)
              (pops := MathExt.refPointOps) Examples.degenerate
              _ eq_refl eq_refl)
    as (Hspacing & _ & Hworld & _ & _ & Hbounds & _).
  - exists 1%nat, (MathNS.mkPoint3D 0 0 1), (MathNS.mkPoint3D 5 0 1).
    split; [reflexivity|]. split; reflexivity.
  - split; [exact Hspacing|]. split; [exact Hworld | exact Hbounds].
Defined.

Lemma legacy_indexToOffset_within_frame_witness :
  0 <= GeometryLegacy.indexToOffset Samples.legacyVolume
         (GeometryLegacy.mkIndex3 1 2 1)
    < GeometryLegacy.getFrameSize (GeometryLegacy.size Samples.legacyVolume)
  /\ (GeometryLegacy.indexToOffset Samples.legacyVolume
        (GeometryLegacy.mkIndex3 1 2 1)
      = GeometryLegacy.indexToOffset Samples.legacyVolume
          (GeometryLegacy.mkIndex3 3 3 1) ->
      GeometryLegacy.mkIndex3 1 2 1 = GeometryLegacy.mkIndex3 3 3 1).
Proof.
  apply (legacy_indexToOffset_within_frame Samples.legacyVolume
           (GeometryLegacy.mkIndex3 1 2 1) (GeometryLegacy.mkIndex3 3 3 1));
    reflexivity.
Defined.


Lemma indexToOffset_offsetToIndex_witness :
  exists index,
    Offsets.offsetToIndex [4; 4; 2; 1] 27 = Return index
    /\ Offsets.inBounds [4; 4; 2; 1] index
    /\ Offsets.indexToOffset [4; 4; 2; 1] index = 27.
Proof.
  apply (indexToOffset_offsetToIndex [4; 4; 2; 1] 27).
  - discriminate.
  - repeat constructor.
  - unfold Offsets.getDimSize. simpl. lia.
Defined.

Lemma indexToOffset_within_buffer_witness :
  0 <= Offsets.indexToOffset [4; 4; 2; 1] [3; 2; 1; 0]
    < Offsets.getDimSize [4; 4; 2; 1] (length [4; 4; 2; 1]).
Proof.
  apply (indexToOffset_within_buffer [4; 4; 2; 1] [3; 2; 1; 0]).
  repeat constructor; lia.
Defined.

